(** * Resume parser: text normalisation, field extraction and skill matching

    A shallow embedding of [utils/parser.py].  Python strings are sequences of
    Unicode code points and are modelled as [list Z]; the functions below follow
    the source function by function:

    - [clean_text]                       (text normaliser)
    - [extract_email], [extract_phone]   (regular-expression extractors)
    - [extract_name]                     (five ordered strategies)
    - [extract_skills]                   (vocabulary scan, display casing, dedup, sort)
    - [_extract_section], [extract_experience], [extract_projects]
    - [calculate_skill_match], [parse_resume]

    Regular expressions are run by a small backtracking matcher with the
    priorities of Python's [re] (greedy repetition, leftmost match).  Floating
    point results are IEEE binary64 values (primitive floats).  What Python
    takes from the Unicode character database for code points above 127 (digit,
    letter and case tables) is a parameter of the development, [UnicodeDB];
    the whitespace set is small and is written out. *)

From Stdlib Require Import String Ascii.
From Stdlib Require Import ZArith List Bool Lia.
From Stdlib Require Import Sorting.Sorted Sorting.Permutation.
From Stdlib Require Import Floats.PrimFloat Floats.FloatOps Floats.SpecFloat.
From Stdlib Require Import Numbers.Cyclic.Int63.Uint63.
Import ListNotations.

Local Open Scope Z_scope.
Local Open Scope list_scope.

(* ================================================================== *)
(** ** Python strings *)
(* ================================================================== *)

(** A Python [str]: the list of its code points. *)
Definition str : Type := list Z.

(** A string literal of the source, as code points (the literals are ASCII). *)
Definition py (x : string) : str :=
  map (fun a => Z.of_N (N_of_ascii a)) (list_ascii_of_string x).

Definition LF : Z := 10.
Definition CR : Z := 13.
Definition SP : Z := 32.

Definition between (lo hi c : Z) : bool := (lo <=? c) && (c <=? hi).

(** [str.isspace] on one character, which is also [\s] of [re] and the set
    [str.strip()] removes: the characters Python classes as whitespace. *)
Definition is_space (c : Z) : bool :=
  between 9 13 c || between 28 32 c || (c =? 133) || (c =? 160) ||
  (c =? 5760) || between 8192 8202 c || (c =? 8232) || (c =? 8233) ||
  (c =? 8239) || (c =? 8287) || (c =? 12288).

Definition is_empty (s : str) : bool :=
  match s with [] => true | _ => false end.

Fixpoint str_eqb (a b : str) : bool :=
  match a, b with
  | [], [] => true
  | x :: a', y :: b' => (x =? y) && str_eqb a' b'
  | _, _ => false
  end.

(** [s.lstrip()] *)
Fixpoint lstrip (s : str) : str :=
  match s with
  | [] => []
  | c :: s' => if is_space c then lstrip s' else s
  end.

(** [s.rstrip()] *)
Fixpoint rstrip (s : str) : str :=
  match s with
  | [] => []
  | c :: s' =>
      match rstrip s' with
      | [] => if is_space c then [] else [c]
      | r => c :: r
      end
  end.

(** [s.strip()] *)
Definition strip (s : str) : str := rstrip (lstrip s).

(** [s.split('\n')] *)
Fixpoint split_nl (s : str) : list str :=
  match s with
  | [] => [[]]
  | c :: s' =>
      if c =? LF then [] :: split_nl s'
      else match split_nl s' with
           | l :: ls => (c :: l) :: ls
           | [] => [[c]]
           end
  end.

(** [sep.join(parts)] *)
Fixpoint join (sep : str) (parts : list str) : str :=
  match parts with
  | [] => []
  | p :: ps =>
      match ps with
      | [] => p
      | _ :: _ => p ++ sep ++ join sep ps
      end
  end.

Definition join_nl (parts : list str) : str := join [LF] parts.

(* ================================================================== *)
(** ** Text cleaning: [clean_text] *)
(* ================================================================== *)

(** The complement of the class of the first substitution,
    [[^\x09\x0A\x0D\x20-\x7E\u00A0-\uFFFF]]: the characters that are kept. *)
Definition kept_char (c : Z) : bool :=
  (c =? 9) || (c =? 10) || (c =? 13) || between 32 126 c || between 160 65535 c.

(** [re.sub(r'[^\x09\x0A\x0D\x20-\x7E\u00A0-\uFFFF]', ' ', text)]: the pattern
    matches one character at a time, so the substitution is a map. *)
Definition sub_nonprintable (text : str) : str :=
  map (fun c => if kept_char c then c else SP) text.

(** [text.replace('\r\n', '\n')] *)
Fixpoint replace_crlf (s : str) : str :=
  match s with
  | [] => []
  | c :: s' =>
      match s' with
      | d :: s'' =>
          if (c =? CR) && (d =? LF) then LF :: replace_crlf s''
          else c :: replace_crlf s'
      | [] => [c]
      end
  end.

(** [text.replace('\r', '\n')] *)
Definition replace_cr (s : str) : str :=
  map (fun c => if c =? CR then LF else c) s.

(** What a maximal run of [run] line feeds becomes under
    [re.sub(r'\n{3,}', '\n\n', _)]: the greedy pattern takes a whole run of
    three or more, shorter runs do not match. *)
Definition emit_newlines (run : nat) : str :=
  if (3 <=? run)%nat then [LF; LF] else repeat LF run.

(** [re.sub(r'\n{3,}', '\n\n', text)], scanning with the length of the
    current run of line feeds. *)
Fixpoint sub_blank_runs (run : nat) (s : str) : str :=
  match s with
  | [] => emit_newlines run
  | c :: s' =>
      if c =? LF then sub_blank_runs (S run) s'
      else emit_newlines run ++ c :: sub_blank_runs 0 s'
  end.

(** The loop over [lines] that drops a blank line following a blank line;
    [prev_blank] is the loop's flag. *)
Fixpoint drop_repeated_blank (prev_blank : bool) (lines : list str) : list str :=
  match lines with
  | [] => []
  | line :: rest =>
      if is_empty line then
        if prev_blank then drop_repeated_blank true rest
        else line :: drop_repeated_blank true rest
      else line :: drop_repeated_blank false rest
  end.

Definition clean_text (text : str) : str :=
  let text := sub_nonprintable text in
  let text := replace_cr (replace_crlf text) in
  let text := sub_blank_runs 0 text in
  let lines := map strip (split_nl text) in
  let cleaned := drop_repeated_blank false lines in
  strip (join_nl cleaned).

(* ================================================================== *)
(** ** Character classes and case mappings *)
(* ================================================================== *)

Definition is_ascii (c : Z) : bool := between 0 127 c.
Definition is_ascii_upper (c : Z) : bool := between 65 90 c.
Definition is_ascii_lower (c : Z) : bool := between 97 122 c.

(** The class [[A-Za-z]] (also [[a-zA-Z]]). *)
Definition is_ascii_letter (c : Z) : bool := is_ascii_upper c || is_ascii_lower c.

(** The class [[0-9]]. *)
Definition is_ascii_digit (c : Z) : bool := between 48 57 c.

Definition lower_char (c : Z) : Z := if is_ascii_upper c then c + 32 else c.
Definition upper_char (c : Z) : Z := if is_ascii_lower c then c - 32 else c.

(** [str.title()] on an ASCII string: a letter that follows a letter is
    lower-cased, any other letter is upper-cased. *)
Fixpoint ascii_title (prev_cased : bool) (s : str) : str :=
  match s with
  | [] => []
  | c :: s' =>
      (if prev_cased then lower_char c else upper_char c)
        :: ascii_title (is_ascii_letter c) s'
  end.

(** [str.capitalize()] on an ASCII string. *)
Definition ascii_capitalize (s : str) : str :=
  match s with
  | [] => []
  | c :: s' => upper_char c :: map lower_char s'
  end.

(** What the Unicode character database decides for code points above 127.
    The tables are not part of the program; every result below holds for any
    contents of them.  Case conversions of a string that is not pure ASCII
    are taken whole, since [str.lower] is context sensitive there. *)
Class UnicodeDB : Type := {
  uni_isdecimal : Z -> bool;   (* category Nd: [\d] *)
  uni_isalnum : Z -> bool;     (* [str.isalnum]: [\w] without the underscore *)
  uni_isalpha : Z -> bool;     (* [str.isalpha] *)
  uni_lower : str -> str;      (* [str.lower] *)
  uni_upper : str -> str;      (* [str.upper] *)
  uni_title : str -> str;      (* [str.title] *)
  uni_capitalize : str -> str  (* [str.capitalize] *)
}.

(** A database with no digit, letter or case pair above 127. *)
Definition plain_db : UnicodeDB := {|
  uni_isdecimal := fun _ => false;
  uni_isalnum := fun _ => false;
  uni_isalpha := fun _ => false;
  uni_lower := map lower_char;
  uni_upper := map upper_char;
  uni_title := ascii_title false;
  uni_capitalize := ascii_capitalize
|}.

Section Unicode.
Context {U : UnicodeDB}.

(** [\d] *)
Definition is_digit (c : Z) : bool :=
  if is_ascii c then is_ascii_digit c else uni_isdecimal c.

(** [\w] *)
Definition is_word (c : Z) : bool :=
  if is_ascii c then is_ascii_letter c || is_ascii_digit c || (c =? 95)
  else uni_isalnum c.

(** [c.isalpha()] *)
Definition isalpha (c : Z) : bool :=
  if is_ascii c then is_ascii_letter c else uni_isalpha c.

Definition py_lower (s : str) : str :=
  if forallb is_ascii s then map lower_char s else uni_lower s.

Definition py_upper (s : str) : str :=
  if forallb is_ascii s then map upper_char s else uni_upper s.

Definition py_title (s : str) : str :=
  if forallb is_ascii s then ascii_title false s else uni_title s.

Definition py_capitalize (s : str) : str :=
  if forallb is_ascii s then ascii_capitalize s else uni_capitalize s.

End Unicode.

(** [needle in hay] for strings, and [s.startswith(p)]. *)
Fixpoint startswith (p s : str) : bool :=
  match p, s with
  | [], _ => true
  | x :: p', y :: s' => (x =? y) && startswith p' s'
  | _ :: _, [] => false
  end.

Fixpoint contains (needle hay : str) : bool :=
  startswith needle hay ||
  match hay with
  | [] => false
  | _ :: hay' => contains needle hay'
  end.

(** [x in l] for a list (or a set) of strings. *)
Definition mem (x : str) (l : list str) : bool := existsb (str_eqb x) l.

(** [s.split()]: the maximal runs of non-whitespace characters. *)
Fixpoint split_ws (s : str) : list str :=
  match s with
  | [] => []
  | c :: s' =>
      if is_space c then split_ws s'
      else match s' with
           | [] => [[c]]
           | d :: _ =>
               if is_space d then [c] :: split_ws s'
               else match split_ws s' with
                    | w :: ws => (c :: w) :: ws
                    | [] => [[c]]
                    end
           end
  end.

(** The conversion of a length or a count to [float] for a true division
    (exact below 2^53). *)
Definition float_of_nat (n : nat) : float :=
  PrimFloat.of_uint63 (Uint63.of_Z (Z.of_nat n)).

(* ================================================================== *)
(** ** Regular expressions *)
(* ================================================================== *)

Module Re.

(** The fragment of [re] syntax the program uses. *)
Inductive regex : Type :=
| Eps                                              (* the empty pattern *)
| Cls (p : Z -> bool)                              (* one character of a class *)
| Rep (p : Z -> bool) (lo : nat) (hi : option nat) (* [c{lo,hi}], [c?], [c*], [c+]: greedy *)
| Seq (r1 r2 : regex)
| Opt (r : regex)                                  (* [(?:r)?], greedy *)
| WordB                                            (* [\b] *)
| NotBehind (p : Z -> bool)                        (* [(?<![..])] *)
| NotAhead (p : Z -> bool).                        (* [(?![..])] *)

(** A continuation receives the character before the position reached and
    the rest of the text. *)
Definition cont (A : Type) : Type := option Z -> str -> option A.

Definition may_take (hi : option nat) : bool :=
  match hi with
  | None => true
  | Some h => (0 <? h)%nat
  end.

Definition one_less (hi : option nat) : option nat :=
  match hi with
  | None => None
  | Some h => Some (Nat.pred h)
  end.

(** Greedy bounded repetition of a class: the longest count is tried first,
    then shorter ones. *)
Fixpoint rep_greedy {A : Type} (p : Z -> bool) (k : cont A)
    (lo : nat) (hi : option nat) (prev : option Z) (s : str) : option A :=
  let stop := match lo with O => k prev s | S _ => None end in
  match s with
  | [] => stop
  | c :: s' =>
      if p c && may_take hi then
        match rep_greedy p k (Nat.pred lo) (one_less hi) (Some c) s' with
        | Some r => Some r
        | None => stop
        end
      else stop
  end.

Section Matcher.
Context {U : UnicodeDB}.

Definition word_at (x : option Z) : bool :=
  match x with
  | Some c => is_word c
  | None => false
  end.

(** The backtracking matcher: [matchre r k prev s] matches [r] at the head
    of [s] ([prev] is the character before it) and hands the rest to [k]; the
    first alternative that lets [k] succeed is the result. *)
Fixpoint matchre {A : Type} (r : regex) (k : cont A) (prev : option Z) (s : str)
    : option A :=
  match r with
  | Eps => k prev s
  | Cls p =>
      match s with
      | c :: s' => if p c then k (Some c) s' else None
      | [] => None
      end
  | Rep p lo hi => rep_greedy p k lo hi prev s
  | Seq r1 r2 => matchre r1 (matchre r2 k) prev s
  | Opt r1 =>
      match matchre r1 k prev s with
      | Some x => Some x
      | None => k prev s
      end
  | WordB => if xorb (word_at prev) (word_at (hd_error s)) then k prev s else None
  | NotBehind p =>
      match prev with
      | Some c => if p c then None else k prev s
      | None => k prev s
      end
  | NotAhead p =>
      match s with
      | c :: _ => if p c then None else k prev s
      | [] => k prev s
      end
  end.

(** The text matched by [r] at the head of [s], if any. *)
Definition match_here (r : regex) (prev : option Z) (s : str) : option str :=
  match matchre r (fun _ rest => Some rest) prev s with
  | Some rest => Some (firstn (length s - length rest) s)
  | None => None
  end.

(** The leftmost match, scanning start positions from the left. *)
Fixpoint search_from (r : regex) (prev : option Z) (s : str) : option str :=
  match match_here r prev s with
  | Some m => Some m
  | None =>
      match s with
      | [] => None
      | c :: s' => search_from r (Some c) s'
      end
  end.

(** [re.search(r, text)], as the matched text; it is also the first element
    of [re.findall(r, text)] for a pattern without groups, and [findall]
    is empty exactly when there is none. *)
Definition search (r : regex) (text : str) : option str := search_from r None text.

End Matcher.

(** A literal string, as [re.escape] makes the pattern match it. *)
Fixpoint lit (w : str) : regex :=
  match w with
  | [] => Eps
  | c :: w' => Seq (Cls (Z.eqb c)) (lit w')
  end.

(** A literal ASCII string under [re.IGNORECASE]. *)
Fixpoint lit_ci (w : str) : regex :=
  match w with
  | [] => Eps
  | c :: w' => Seq (Cls (fun x => (x =? lower_char c) || (x =? upper_char c))) (lit_ci w')
  end.

Fixpoint seq (rs : list regex) : regex :=
  match rs with
  | [] => Eps
  | r :: rs' => Seq r (seq rs')
  end.

Definition chr (x : string) (c : Z) : bool := existsb (Z.eqb c) (py x).
Definition opt (p : Z -> bool) : regex := Rep p 0 (Some 1%nat).
Definition star (p : Z -> bool) : regex := Rep p 0 None.
Definition plus (p : Z -> bool) : regex := Rep p 1 None.
Definition times (p : Z -> bool) (lo hi : nat) : regex := Rep p lo (Some hi).

End Re.

Import Re.

Definition NOT_FOUND : str := py "Not Found".

Section Extractors.
Context {U : UnicodeDB}.

(* ================================================================== *)
(** ** Contact extraction: [extract_email], [extract_phone] *)
(* ================================================================== *)

(** [[A-Za-z0-9._%+\-]] and [[A-Za-z0-9.\-]] *)
Definition email_local_char (c : Z) : bool :=
  is_ascii_letter c || is_ascii_digit c || chr "._%+-" c.
Definition email_domain_char (c : Z) : bool :=
  is_ascii_letter c || is_ascii_digit c || chr ".-" c.

(** [\b[A-Za-z0-9._%+\-]+@[A-Za-z0-9.\-]+\.[A-Za-z]{2,7}\b] *)
Definition email_pattern : regex :=
  seq [WordB; plus email_local_char; Cls (chr "@"); plus email_domain_char;
       Cls (chr "."); times is_ascii_letter 2 7; WordB].

Definition extract_email (text : str) : str :=
  match search email_pattern text with
  | Some m => m
  | None => NOT_FOUND
  end.

(** [[\s\-\.]] *)
Definition phone_sep (c : Z) : bool := is_space c || chr "-." c.

Definition phone_patterns : list regex :=
  [ (* \+\d{1,3}[\s\-\.]?\(?\d{1,4}\)?[\s\-\.]?\d{3,5}[\s\-\.]?\d{4,6} *)
    seq [Cls (chr "+"); times is_digit 1 3; opt phone_sep; opt (chr "(");
         times is_digit 1 4; opt (chr ")"); opt phone_sep; times is_digit 3 5;
         opt phone_sep; times is_digit 4 6];
    (* \(\d{3}\)[\s\-\.]?\d{3}[\s\-\.]?\d{4} *)
    seq [Cls (chr "("); times is_digit 3 3; Cls (chr ")"); opt phone_sep;
         times is_digit 3 3; opt phone_sep; times is_digit 4 4];
    (* \b\d{3}[\s\-\.]\d{3}[\s\-\.]\d{4}\b *)
    seq [WordB; times is_digit 3 3; Cls phone_sep; times is_digit 3 3;
         Cls phone_sep; times is_digit 4 4; WordB];
    (* \b[6-9]\d{9}\b *)
    seq [WordB; Cls (between 54 57); times is_digit 9 9; WordB];
    (* \b\d{10,15}\b *)
    seq [WordB; times is_digit 10 15; WordB] ].

(** [re.sub(r'\s+', ' ', s)]: every maximal run of whitespace becomes one
    space (emitted at the last character of the run). *)
Fixpoint sub_ws_runs (s : str) : str :=
  match s with
  | [] => []
  | c :: s' =>
      if is_space c then
        match s' with
        | [] => [SP]
        | d :: _ => if is_space d then sub_ws_runs s' else SP :: sub_ws_runs s'
        end
      else c :: sub_ws_runs s'
  end.

(** [phone = re.sub(r'\s+', ' ', matches[0]).strip()] *)
Definition phone_of_match (m : str) : str := strip (sub_ws_runs m).

(** [digits = re.sub(r'\D', '', phone)] *)
Definition digits_of (phone : str) : str := filter is_digit phone.

(** The sanity check [len(digits) >= 10]. *)
Definition enough_digits (phone : str) : bool :=
  (10 <=? length (digits_of phone))%nat.

(** The loop [for pattern in patterns]: it returns from inside only when the
    sanity check passes, and otherwise goes on to the next pattern. *)
Fixpoint phone_loop (patterns : list regex) (text : str) : str :=
  match patterns with
  | [] => NOT_FOUND
  | pattern :: rest =>
      match search pattern text with
      | Some m =>
          let phone := phone_of_match m in
          if enough_digits phone then phone else phone_loop rest text
      | None => phone_loop rest text
      end
  end.

Definition extract_phone (text : str) : str := phone_loop phone_patterns text.

End Extractors.

(* ================================================================== *)
(** ** Skills: [SKILLS_DB], [extract_skills] *)
(* ================================================================== *)

(** The vocabulary, in the order of the source (with its repeated entries). *)
Definition SKILLS_DB : list str := map py
  [ (* Programming Languages *)
    "python"; "java"; "javascript"; "typescript"; "c"; "c++"; "c#"; "ruby";
    "go"; "rust"; "swift"; "kotlin"; "php"; "r"; "matlab"; "scala"; "perl";
    "bash"; "shell"; "powershell"; "vba"; "dart"; "lua"; "haskell"; "elixir";
    (* Web Frontend *)
    "html"; "css"; "react"; "angular"; "vue"; "next.js"; "nuxt.js";
    "jquery"; "bootstrap"; "tailwind"; "sass"; "less"; "webpack"; "vite";
    "redux"; "svelte";
    (* Web Backend *)
    "node.js"; "express"; "django"; "flask"; "fastapi"; "spring"; "asp.net";
    "laravel"; "rails"; "graphql"; "rest"; "soap"; "api"; "swagger";
    "microservices";
    (* Databases *)
    "sql"; "mysql"; "postgresql"; "mongodb"; "sqlite"; "redis"; "cassandra";
    "elasticsearch"; "oracle"; "mssql"; "dynamodb"; "firebase"; "neo4j";
    "mariadb"; "couchdb"; "influxdb";
    (* Cloud & DevOps *)
    "aws"; "azure"; "gcp"; "docker"; "kubernetes"; "jenkins"; "ci/cd";
    "terraform"; "ansible"; "nginx"; "apache"; "linux"; "git"; "github";
    "gitlab"; "bitbucket"; "circleci"; "travis ci"; "helm";
    (* Data Science & Machine Learning *)
    "machine learning"; "deep learning"; "tensorflow"; "pytorch"; "keras";
    "scikit-learn"; "pandas"; "numpy"; "matplotlib"; "seaborn"; "nlp";
    "computer vision"; "opencv"; "huggingface"; "transformers"; "bert";
    "gpt"; "llm"; "data analysis"; "data visualization"; "statistics";
    "hadoop"; "spark"; "tableau"; "power bi"; "data mining"; "feature engineering";
    "xgboost"; "lightgbm"; "random forest"; "neural network";
    (* Mobile *)
    "android"; "ios"; "react native"; "flutter"; "xamarin"; "ionic";
    (* Testing *)
    "selenium"; "pytest"; "junit"; "jest"; "mocha"; "cypress"; "postman";
    "unit testing"; "integration testing"; "test automation";
    (* Tools & Platforms *)
    "jira"; "confluence"; "slack"; "trello"; "figma"; "photoshop"; "excel";
    "visual studio"; "vs code"; "intellij"; "eclipse"; "jupyter"; "colab";
    "linux"; "unix"; "windows server"; "bash"; "vim";
    (* Methodologies *)
    "agile"; "scrum"; "kanban"; "waterfall"; "tdd"; "bdd"; "devops";
    "project management";
    (* Soft Skills *)
    "communication"; "teamwork"; "leadership"; "problem solving";
    "critical thinking"; "time management"; "adaptability" ]%string.

(** The acronyms that keep the casing of the vocabulary. *)
Definition ACRONYMS : list str := map py
  ["AWS"; "GCP"; "SQL"; "CSS"; "HTML"; "API"; "NLP"; "TDD"; "BDD"; "VBA"]%string.

(** Lexicographic comparison of strings by code point, [a <= b] in Python. *)
Fixpoint str_leb (a b : str) : bool :=
  match a, b with
  | [], _ => true
  | _ :: _, [] => false
  | x :: a', y :: b' => (x <? y) || ((x =? y) && str_leb a' b')
  end.

(** [sorted(l)] for a list of strings: a stable insertion sort. *)
Fixpoint insert_sorted (x : str) (l : list str) : list str :=
  match l with
  | [] => [x]
  | y :: l' => if str_leb x y then x :: l else y :: insert_sorted x l'
  end.

Fixpoint sorted (l : list str) : list str :=
  match l with
  | [] => []
  | x :: l' => insert_sorted x (sorted l')
  end.

Section Skills.
Context {U : UnicodeDB}.

(** The pattern built for one vocabulary entry. *)
Definition skill_pattern (skill : str) : regex :=
  let skill_lower := py_lower skill in
  if (length skill <=? 3)%nat then
    Seq (NotBehind is_ascii_letter) (Seq (lit skill_lower) (NotAhead is_ascii_letter))
  else lit skill_lower.

(** [re.search(pattern, text_lower)] as a truth value. *)
Definition skill_found (text_lower skill : str) : bool :=
  match search (skill_pattern skill) text_lower with
  | Some _ => true
  | None => false
  end.

(** The display form appended to [found_skills].  The second test compares
    [skill.upper()] with itself, as the source does. *)
Definition display_form (skill : str) : str :=
  if contains (py ".") skill || contains (py "/") skill
     || mem (py_upper skill) ACRONYMS
  then skill
  else if (length skill <=? 4)%nat && str_eqb (py_upper skill) (py_upper skill)
  then py_upper skill
  else py_title skill.

(** The scan of the vocabulary. *)
Definition found_skills (text_lower : str) : list str :=
  flat_map (fun skill => if skill_found text_lower skill then [display_form skill] else [])
           SKILLS_DB.

(** The deduplication loop; [seen] is the set of lower-cased keys. *)
Fixpoint unique_skills (seen : list str) (found : list str) : list str :=
  match found with
  | [] => []
  | skill :: rest =>
      let key := py_lower skill in
      if mem key seen then unique_skills seen rest
      else skill :: unique_skills (key :: seen) rest
  end.

Definition extract_skills (text : str) : list str :=
  let text_lower := py_lower text in
  sorted (unique_skills [] (found_skills text_lower)).

(* ================================================================== *)
(** ** Sections: [_extract_section] and its specialisations *)
(* ================================================================== *)

Definition all_section_headers : list str := map py
  [ "experience"; "education"; "skills"; "projects"; "certifications";
    "awards"; "publications"; "references"; "summary"; "objective";
    "work history"; "employment"; "academic"; "achievements"; "interests";
    "languages"; "volunteer"; "activities"; "contact"; "personal";
    "internship"; "training"; "courses"; "hobbies"; "declaration" ]%string.

(** [stop_keywords]: the headers that are not keywords of the section. *)
Definition stop_keywords (section_keywords : list str) : list str :=
  let section_kws_lower := map py_lower section_keywords in
  filter (fun h => negb (mem h section_kws_lower)) all_section_headers.

(** The variables of the loop. *)
Record section_state : Type := {
  in_section : bool;
  empty_line_count : nat;
  section_content : list str
}.

Definition section_init : section_state :=
  {| in_section := false; empty_line_count := 0%nat; section_content := [] |}.

(** One iteration: the new state, and whether the loop goes on. *)
Inductive loop_step : Type :=
| Next (st : section_state)
| Break (st : section_state).

(** [any(kw.lower() in line_lower for kw in section_keywords)] *)
Definition is_header_of (section_keywords : list str) (line_lower : str) : bool :=
  existsb (fun kw => contains (py_lower kw) line_lower) section_keywords.

(** [any(kw in line_lower for kw in stop_keywords) and len(stripped) < 60] *)
Definition is_stop_line (section_keywords : list str) (stripped : str) : bool :=
  existsb (fun kw => contains kw (py_lower stripped)) (stop_keywords section_keywords)
  && (length stripped <? 60)%nat.

Definition section_step (section_keywords : list str) (st : section_state)
    (line : str) : loop_step :=
  let stripped := strip line in
  let line_lower := py_lower stripped in
  if negb (in_section st) then
    if is_header_of section_keywords line_lower && (length stripped <? 80)%nat
    then Next {| in_section := true;
                 empty_line_count := empty_line_count st;
                 section_content := section_content st |}
    else Next st
  else if is_stop_line section_keywords stripped then Break st
  else
    let st1 :=
      if is_empty stripped
      then {| in_section := true;
              empty_line_count := S (empty_line_count st);
              section_content := section_content st |}
      else {| in_section := true;
              empty_line_count := 0%nat;
              section_content := section_content st ++ [stripped] |} in
    if is_empty stripped && (3 <=? empty_line_count st1)%nat then Break st1
    else if (40 <=? length (section_content st1))%nat then Break st1
    else Next st1.

(** The loop [for line in lines]. *)
Fixpoint section_loop (section_keywords : list str) (st : section_state)
    (lines : list str) : section_state :=
  match lines with
  | [] => st
  | line :: rest =>
      match section_step section_keywords st line with
      | Next st' => section_loop section_keywords st' rest
      | Break st' => st'
      end
  end.

(** The value returned after the loop. *)
Definition section_result (st : section_state) : str :=
  match section_content st with
  | [] => NOT_FOUND
  | _ :: _ => join_nl (section_content st)
  end.

Definition _extract_section (text : str) (section_keywords : list str) : str :=
  section_result (section_loop section_keywords section_init (split_nl text)).

Definition experience_keywords : list str := map py
  [ "work experience"; "professional experience"; "experience";
    "employment history"; "work history"; "employment";
    "career history"; "internship"; "internships" ]%string.

Definition extract_experience (text : str) : str :=
  _extract_section text experience_keywords.

Definition projects_keywords : list str := map py
  [ "projects"; "personal projects"; "academic projects";
    "project work"; "key projects"; "notable projects" ]%string.

Definition extract_projects (text : str) : str :=
  _extract_section text projects_keywords.

End Skills.

(* ================================================================== *)
(** ** Name extraction: [extract_name] *)
(* ================================================================== *)

(** The entity recogniser [nlp], when it is loaded: the entities of a text,
    each with its text and its label. *)
Definition recogniser : Type := str -> list (str * str).

Definition skip_words : list str := map py
  [ "resume"; "curriculum"; "vitae"; "cv"; "profile"; "summary";
    "objective"; "address"; "phone"; "email"; "contact"; "mobile";
    "linkedin"; "github"; "portfolio"; "website"; "http"; "www";
    "education"; "experience"; "skills"; "projects"; "certifications";
    "declaration"; "references"; "date"; "place"; "@" ]%string.

(** [re.split(r'[\.\-\+]+', s)] for a class [sep]: the pieces between the
    maximal runs of separators. *)
Fixpoint split_runs (sep : Z -> bool) (s : str) : list str :=
  match s with
  | [] => [[]]
  | c :: s' =>
      if sep c then
        match s' with
        | [] => [[]; []]
        | d :: _ => if sep d then split_runs sep s' else [] :: split_runs sep s'
        end
      else match split_runs sep s' with
           | p :: ps => (c :: p) :: ps
           | [] => [[c]]
           end
  end.

(** [re.sub(r'\s{2,}', ' ', s)]: a run of two or more whitespace characters
    becomes one space; a single whitespace character stays.  [run] is the
    whitespace read since the last other character, in reverse. *)
Fixpoint sub_ws_2plus (run : str) (s : str) : str :=
  let flush := match run with
               | [] => []
               | [w] => [w]
               | _ :: _ :: _ => [SP]
               end in
  match s with
  | [] => flush
  | c :: s' =>
      if is_space c then sub_ws_2plus (c :: run) s'
      else flush ++ c :: sub_ws_2plus [] s'
  end.

Section Name.
Context {U : UnicodeDB}.

(** [any(kw in candidate.lower() for kw in skip_words)] *)
Definition has_skip_word (candidate : str) : bool :=
  existsb (fun kw => contains kw (py_lower candidate)) skip_words.

(** [1 <= len(words) <= 5] *)
Definition word_count_ok (words : list str) : bool :=
  (1 <=? length words)%nat && (length words <=? 5)%nat.

Definition starts_with_letter (w : str) : bool :=
  match w with
  | c :: _ => is_ascii_letter c
  | [] => false
  end.

(** The literal [0.85] of the source, as the binary64 value it denotes. *)
Definition ratio_threshold : float := 0x1.b333333333333p-1%float.

(** [sum(c.isalpha() or c in '. -' for c in candidate)] *)
Definition alpha_chars (candidate : str) : nat :=
  length (filter (fun c => isalpha c || chr ". -" c) candidate).

Definition _is_name_like (candidate : str) : bool :=
  let candidate := strip candidate in
  if is_empty candidate || (length candidate <? 2)%nat then false
  else
    let words := split_ws candidate in
    if negb (word_count_ok words) then false
    else if negb (forallb starts_with_letter words) then false
    else if PrimFloat.ltb
              (PrimFloat.div (float_of_nat (alpha_chars candidate))
                             (float_of_nat (Nat.max (length candidate) 1)))
              ratio_threshold
    then false
    else if has_skip_word candidate then false
    else true.

(** [[^A-Za-z\s\.\-]] is the class replaced by a space. *)
Definition _clean_line (line : str) : str :=
  let cleaned :=
    map (fun c => if is_ascii_letter c || is_space c || chr ".-" c then c else SP) line in
  strip (sub_ws_2plus [] cleaned).

(** The pattern of strategy 1 up to its group, under [re.IGNORECASE]:
    [(?:full\s{0,})?name\s{0,}[:;\-|]\s{0,}] (the source writes each
    [\s{0,}] as a starred [\s]).  The group [(.+)] that follows is the
    continuation [label_group]. *)
Definition label_prefix : regex :=
  seq [Opt (Seq (lit_ci (py "full")) (star is_space)); lit_ci (py "name");
       star is_space; Cls (chr ":;-|"); star is_space].

(** [(.+)] at the end of the pattern: greedy, every character up to a line
    feed, and at least one. *)
Fixpoint upto_newline (s : str) : str :=
  match s with
  | [] => []
  | c :: s' => if c =? LF then [] else c :: upto_newline s'
  end.

Definition label_group : cont str :=
  fun _ rest =>
    match upto_newline rest with
    | [] => None
    | g => Some g
    end.

(** [re.match(..., line.strip(), re.IGNORECASE)] and its [group(1)]. *)
Definition match_name_label (line : str) : option str :=
  matchre label_prefix label_group None (strip line).

(** Strategy 1: an explicit name label in the first 15 lines. *)
Fixpoint name_from_label (lines : list str) : option str :=
  match lines with
  | [] => None
  | line :: rest =>
      match match_name_label line with
      | Some g =>
          let candidate := _clean_line g in
          if _is_name_like candidate then Some (py_title candidate)
          else name_from_label rest
      | None => name_from_label rest
      end
  end.

(** Strategy 2: the first acceptable PERSON entity. *)
Fixpoint name_from_entities (ents : list (str * str)) : option str :=
  match ents with
  | [] => None
  | (text, label) :: rest =>
      if str_eqb label (py "PERSON") then
        let candidate := strip text in
        let words := split_ws candidate in
        if word_count_ok words && (2 <=? length candidate)%nat
           && negb (has_skip_word candidate)
        then Some candidate
        else name_from_entities rest
      else name_from_entities rest
  end.

(** Strategy 3: the first line that is only a name. *)
Fixpoint name_from_line (lines : list str) : option str :=
  match lines with
  | [] => None
  | line :: rest =>
      let stripped := strip line in
      if is_empty stripped then name_from_line rest
      else
        let cleaned := _clean_line stripped in
        if _is_name_like cleaned && (length cleaned <=? 50)%nat
        then Some (py_title cleaned)
        else name_from_line rest
  end.

(** Strategy 4: the first non-empty line, cleaned; the loop stops there. *)
Fixpoint name_from_first_line (lines : list str) : option str :=
  match lines with
  | [] => None
  | line :: rest =>
      let stripped := strip line in
      if is_empty stripped then name_from_first_line rest
      else
        let cleaned := _clean_line stripped in
        let words := filter (fun w => (2 <=? length w)%nat) (split_ws cleaned) in
        let candidate := join [SP] words in
        if negb (is_empty candidate) && word_count_ok words
           && negb (has_skip_word candidate)
        then Some (py_title candidate)
        else None
  end.

(** [email.split('@')[0]] *)
Fixpoint before_at (s : str) : str :=
  match s with
  | [] => []
  | c :: s' => if c =? 64 then [] else c :: before_at s'
  end.

(** Strategy 5: a name derived from the email address. *)
Definition name_from_email (text : str) : option str :=
  let email := extract_email text in
  if negb (is_empty email) && negb (str_eqb email NOT_FOUND) then
    let local_part := before_at email in
    let local_part :=
      map (fun c => if is_ascii_digit c || (c =? 95) then SP else c) local_part in
    let parts := split_runs (chr ".-+") local_part in
    let parts :=
      map strip (filter (fun p => (2 <=? length (strip p))%nat) parts) in
    match parts with
    | [] => None
    | _ :: _ => Some (join [SP] (map py_capitalize parts))
    end
  else None.

Definition extract_name (nlp : option recogniser) (text : str) : str :=
  let lines := split_nl (strip text) in
  match name_from_label (firstn 15 lines) with
  | Some name => name
  | None =>
      let first_block := join_nl (firstn 10 lines) in
      match match nlp with
            | Some run => name_from_entities (run first_block)
            | None => None
            end with
      | Some name => name
      | None =>
          match name_from_line (firstn 10 lines) with
          | Some name => name
          | None =>
              match name_from_first_line (firstn 5 lines) with
              | Some name => name
              | None =>
                  match name_from_email text with
                  | Some name => name
                  | None => NOT_FOUND
                  end
              end
          end
      end
  end.

End Name.

(* ================================================================== *)
(** ** Skill match: [calculate_skill_match] *)
(* ================================================================== *)

(** [num / den] rounded to the nearest integer, ties to even ([0 < den]). *)
Definition round_half_even (num den : Z) : Z :=
  let q := num / den in
  let r := num mod den in
  if 2 * r <? den then q
  else if den <? 2 * r then q + 1
  else if Z.even q then q else q + 1.

(** [round(x, 1)] on a float: the exact binary value of [x] is rounded to
    one decimal, ties to even, and the float nearest to that decimal is
    returned (the quotient of two exact floats is correctly rounded). *)
Definition round1 (x : float) : float :=
  match Prim2SF x with
  | S754_finite sg m e =>
      let tenths :=
        if 0 <=? e then 10 * Z.pos m * 2 ^ e
        else round_half_even (10 * Z.pos m) (2 ^ (- e)) in
      let r := PrimFloat.div (PrimFloat.of_uint63 (Uint63.of_Z tenths)) 10%float in
      if sg then PrimFloat.opp r else r
  | _ => x
  end.

(** [round((matched / total) * 100, 1)] *)
Definition match_percentage (matched total : nat) : float :=
  round1 (PrimFloat.mul (PrimFloat.div (float_of_nat matched) (float_of_nat total))
                        100%float).

Section Matching.
Context {U : UnicodeDB}.

(** The sets [resume_lower], [job_lower], [matched_lower] and
    [missing_lower] are only tested for membership; each is the list of its
    elements. *)
Definition calculate_skill_match (resume_skills : list str) (job_description : str)
    : float * list str * list str :=
  if is_empty job_description || (length resume_skills =? 0)%nat then
    (0%float, [], [])
  else
    let job_skills := extract_skills job_description in
    if (length job_skills =? 0)%nat then (0%float, [], [])
    else
      let resume_lower := map py_lower resume_skills in
      let job_lower := map py_lower job_skills in
      let matched_lower := filter (fun k => mem k job_lower) resume_lower in
      let missing_lower := filter (fun k => negb (mem k resume_lower)) job_lower in
      let matched := filter (fun s => mem (py_lower s) matched_lower) job_skills in
      let missing := filter (fun s => mem (py_lower s) missing_lower) job_skills in
      let percentage := match_percentage (length matched) (length job_skills) in
      (percentage, matched, missing).

(** The value of the key ["skill_match"]. *)
Record SkillMatch : Type := {
  percentage : float;
  matched_skills : list str;
  missing_skills : list str;
  total_jd_skills : nat;
  matched_count : nat
}.

(** The dictionary [parse_resume] builds from the triple. *)
Definition skill_match_dict (r : float * list str * list str) : SkillMatch :=
  let '(match_pct, matched, missing) := r in
  {| percentage := match_pct;
     matched_skills := matched;
     missing_skills := missing;
     total_jd_skills := (length matched + length missing)%nat;
     matched_count := length matched |}.

End Matching.

(* ================================================================== *)
(** ** Document readers and the entry point [parse_resume] *)
(* ================================================================== *)

Inductive exn : Type :=
| ImportError (msg : str)
| ValueError (msg : str).

(** [PdfReader(path)]: it raises (with the text of the exception) or gives
    the pages, and [extract_text()] of a page raises or returns its text
    (the empty string when there is none). *)
Definition pdf_library : Type := str -> str + list (str + str).

(** [Document(path)]: it raises or gives the texts of the paragraphs and,
    for each table, for each row, the texts of the cells. *)
Definition docx_library : Type := str -> str + (list str * list (list (list str))).

(** The optional imports of the module. *)
Record Libraries : Type := {
  PdfReader : option pdf_library;
  Document : option docx_library;
  nlp : option recogniser
}.

(** A call of a document reader on a path. *)
Inductive event : Type :=
| OpenPdf (path : str)
| OpenDocx (path : str).

(** Computations that may raise and that record the reader calls made. *)
Definition io (A : Type) : Type := list event -> (exn + A) * list event.

Definition ret {A : Type} (x : A) : io A := fun tr => (inr x, tr).
Definition raise {A : Type} (e : exn) : io A := fun tr => (inl e, tr).
Definition bind {A B : Type} (m : io A) (f : A -> io B) : io B :=
  fun tr =>
    match m tr with
    | (inl e, tr') => (inl e, tr')
    | (inr x, tr') => f x tr'
    end.
Definition emit (ev : event) : io unit := fun tr => (inr tt, tr ++ [ev]).

Notation "x <- m ;; k" := (bind m (fun x => k))
  (at level 61, m at next level, right associativity).

(** The loop over the pages; [inl] is an exception raised on the way. *)
Fixpoint pdf_pages_text (pages : list (str + str)) (text : str) : str + str :=
  match pages with
  | [] => inr text
  | inl e :: _ => inl e
  | inr page_text :: rest =>
      pdf_pages_text rest
        (if is_empty page_text then text else text ++ page_text ++ [LF])
  end.

Definition extract_text_from_pdf (L : Libraries) (file_path : str) : io str :=
  match PdfReader L with
  | None => raise (ImportError (py "PyPDF2 is not installed. Run: pip install PyPDF2"))
  | Some reader =>
      _ <- emit (OpenPdf file_path) ;;
      match reader file_path with
      | inl e => raise (ValueError (py "Error reading PDF file: " ++ e))
      | inr pages =>
          match pdf_pages_text pages [] with
          | inl e => raise (ValueError (py "Error reading PDF file: " ++ e))
          | inr text => ret (strip text)
          end
      end
  end.

Definition docx_paragraphs_text (paragraphs : list str) : str :=
  flat_map (fun para => if is_empty (strip para) then [] else para ++ [LF]) paragraphs.

Definition docx_row_text (cells : list str) : str :=
  join (py " | ")
       (map strip (filter (fun cell => negb (is_empty (strip cell))) cells)).

Definition docx_tables_text (tables : list (list (list str))) : str :=
  flat_map (fun table =>
    flat_map (fun row =>
      let row_text := docx_row_text row in
      if is_empty row_text then [] else row_text ++ [LF]) table) tables.

Definition extract_text_from_docx (L : Libraries) (file_path : str) : io str :=
  match Document L with
  | None =>
      raise (ImportError (py "python-docx is not installed. Run: pip install python-docx"))
  | Some open =>
      _ <- emit (OpenDocx file_path) ;;
      match open file_path with
      | inl e => raise (ValueError (py "Error reading DOCX file: " ++ e))
      | inr (paragraphs, tables) =>
          ret (strip (docx_paragraphs_text paragraphs ++ docx_tables_text tables))
      end
  end.

(** The dictionary returned by [parse_resume].  The keys ["linkedin"],
    ["github"] and ["education"] are filled by extractors that are not
    embedded here and are left out of the record. *)
Record ParsedResume : Type := {
  name : str;
  email : str;
  phone : str;
  skills : list str;
  experience : str;
  projects : str;
  skill_match : SkillMatch;
  raw_text_preview : str
}.

Section Entry.
Context {U : UnicodeDB}.

Definition unsupported_message (ext : str) : str :=
  py "Unsupported file format '" ++ ext ++ py "'. Please upload a PDF or DOCX file.".

Definition parse_resume (L : Libraries) (file_path file_extension job_description : str)
    : io ParsedResume :=
  let ext := py_lower file_extension in
  raw_text <-
    (if str_eqb ext (py ".pdf") then extract_text_from_pdf L file_path
     else if mem ext [py ".docx"; py ".doc"] then extract_text_from_docx L file_path
     else raise (ValueError (unsupported_message ext))) ;;
  if is_empty (strip raw_text) then
    raise (ValueError (py "Could not extract any text from the file. It may be an image-based PDF or a corrupted file."))
  else
    let cleaned_text := clean_text raw_text in
    let skills := extract_skills cleaned_text in
    ret {| name := extract_name (nlp L) cleaned_text;
           email := extract_email cleaned_text;
           phone := extract_phone cleaned_text;
           skills := skills;
           experience := extract_experience cleaned_text;
           projects := extract_projects cleaned_text;
           skill_match := skill_match_dict (calculate_skill_match skills job_description);
           raw_text_preview :=
             if (800 <? length cleaned_text)%nat
             then firstn 800 cleaned_text ++ [LF] ++ py "...[truncated]"
             else cleaned_text |}.

End Entry.

(* ================================================================== *)
(** ** Profile links: [extract_linkedin], [extract_github] *)
(* ================================================================== *)

(** The extractors of the keys ["linkedin"], ["github"] and ["education"],
    with the combinators their patterns need beyond [regex]: a starred
    group, alternatives and all the matches of a text. *)

(** One literal character under [re.IGNORECASE].  Besides the two ASCII
    cases, [re] folds the dotted capital I (U+0130) and the dotless i
    (U+0131) to [i], the Kelvin sign (U+212A) to [k] and the long s (U+017F)
    to [s]. *)
Definition fold_char (c x : Z) : bool :=
  (x =? lower_char c) || (x =? upper_char c) ||
  ((lower_char c =? 105) && ((x =? 304) || (x =? 305))) ||
  ((lower_char c =? 107) && (x =? 8490)) ||
  ((lower_char c =? 115) && (x =? 383)).

(** A literal string under [re.IGNORECASE]. *)
Fixpoint lit_fold (w : str) : regex :=
  match w with
  | [] => Eps
  | c :: w' => Seq (Cls (fold_char c)) (lit_fold w')
  end.

(** The class [[A-Za-z]] under [re.IGNORECASE]. *)
Definition is_letter_fold (c : Z) : bool :=
  is_ascii_letter c || (c =? 304) || (c =? 305) || (c =? 383) || (c =? 8490).

(** [s.rstrip(chars)] for a set of characters. *)
Fixpoint rstrip_chars (p : Z -> bool) (s : str) : str :=
  match s with
  | [] => []
  | c :: s' =>
      match rstrip_chars p s' with
      | [] => if p c then [] else [c]
      | r => c :: r
      end
  end.

Section Links.
Context {U : UnicodeDB}.

(** [(?:r)*], greedy, for a group [r] that reads at least one character;
    [fuel] bounds the number of rounds (the length of the text is enough). *)
Fixpoint star_group {A : Type} (fuel : nat) (r : regex) (k : cont A)
    (prev : option Z) (s : str) : option A :=
  match fuel with
  | O => k prev s
  | S fuel' =>
      match matchre r (star_group fuel' r k) prev s with
      | Some x => Some x
      | None => k prev s
      end
  end.

(** The text matched at the head of [s] by a pattern given as a matcher. *)
Definition here_with (m : cont str -> cont str) (prev : option Z) (s : str)
    : option str :=
  match m (fun _ rest => Some rest) prev s with
  | Some rest => Some (firstn (length s - length rest) s)
  | None => None
  end.

(** The leftmost position where [m] succeeds, and its result there. *)
Fixpoint first_at {A : Type} (m : option Z -> str -> option A)
    (prev : option Z) (s : str) : option A :=
  match m prev s with
  | Some x => Some x
  | None =>
      match s with
      | [] => None
      | c :: s' => first_at m (Some c) s'
      end
  end.

(** [[\w\-\.%]] *)
Definition url_char (c : Z) : bool := is_word c || chr "-.%" c.

(** The class of the query string: not whitespace, [<], [>] or the double
    quote (code 34). *)
Definition query_char (c : Z) : bool :=
  negb (is_space c || chr "<>" c || (c =? 34)).

(** [(?:https?://)?(?:www\.)?] *)
Definition url_head : regex :=
  seq [Opt (seq [lit_fold (py "http"); opt (fold_char 115); lit (py "://")]);
       Opt (lit_fold (py "www."))].

(** The group of the sub-paths, [/[\w\-\.%]{0,}], and the optional query
    string, [\?] followed by query characters. *)
Definition path_group : regex := Seq (Cls (chr "/")) (star url_char).
Definition query_part : regex := Opt (Seq (Cls (chr "?")) (star query_char)).

(** The end of both URL patterns: any number of sub-paths, then the
    optional query string. *)
Definition url_tail {A : Type} (k : cont A) : cont A :=
  fun prev s => star_group (length s) path_group (matchre query_part k) prev s.

(** The LinkedIn pattern: head, [linkedin\.com/in/], [[\w\-\.%]+], tail. *)
Definition linkedin_match {A : Type} (k : cont A) : cont A :=
  matchre (seq [url_head; lit_fold (py "linkedin.com/in/"); plus url_char]) (url_tail k).

(** [url = matches[0].strip().rstrip('.,;)')], then the scheme is added
    when [url.lower()] does not start with [http]. *)
Definition finish_url (m : str) : str :=
  let url := rstrip_chars (chr ".,;)") (strip m) in
  if negb (startswith (py "http") (py_lower url)) then py "https://" ++ url else url.

Definition extract_linkedin (text : str) : str :=
  match first_at (here_with linkedin_match) None text with
  | Some m => finish_url m
  | None => NOT_FOUND
  end.

(** [[A-Za-z0-9]] and [[A-Za-z0-9\-]] under [re.IGNORECASE]. *)
Definition github_user_first (c : Z) : bool := is_letter_fold c || is_ascii_digit c.
Definition github_user_char (c : Z) : bool := github_user_first c || (c =? 45).

(** [[A-Za-z0-9](?:[A-Za-z0-9\-]{0,38})] *)
Definition github_username : regex :=
  Seq (Cls github_user_first) (times github_user_char 0 38).

(** The GitHub URL pattern: head, [github\.com/], a user name, tail. *)
Definition github_match {A : Type} (k : cont A) : cont A :=
  matchre (seq [url_head; lit_fold (py "github.com/"); github_username]) (url_tail k).

(** The label pattern up to its group: [github], whitespace, one of [:-|],
    whitespace; the group is the user name. *)
Definition github_label : regex :=
  seq [lit_fold (py "github"); star is_space; Cls (chr ":-|"); star is_space].

Definition extract_github (text : str) : str :=
  match first_at (here_with github_match) None text with
  | Some m => finish_url m
  | None =>
      match first_at (matchre github_label (match_here github_username)) None text with
      | Some username => py "https://github.com/" ++ username
      | None => NOT_FOUND
      end
  end.

(* ================================================================== *)
(** ** Education: [extract_education] *)
(* ================================================================== *)

Definition education_keywords : list str := map py
  [ "education"; "academic background"; "qualifications";
    "academics"; "educational qualification" ]%string.

(** A degree name with optional dots: the letters of [parts] in turn, each
    part followed by an optional dot when [dots] says so. *)
Fixpoint dotted (parts : list (string * bool)) : regex :=
  match parts with
  | [] => Eps
  | (w, dot) :: rest =>
      Seq (lit_fold (py w))
          (if dot then Seq (opt (chr ".")) (dotted rest) else dotted rest)
  end.

(** The alternatives of the degree pattern, in the order of the source. *)
Definition degree_names : list regex :=
  [ dotted [("B", true); ("Tech", false)];              (* B\.?Tech *)
    dotted [("B", true); ("E", true)];                  (* B\.?E\.? *)
    dotted [("B", true); ("Sc", true)];                 (* B\.?Sc\.? *)
    dotted [("B", true); ("Com", true)];                (* B\.?Com\.? *)
    dotted [("B", true); ("A", true)];                  (* B\.?A\.? *)
    dotted [("M", true); ("Tech", false)];              (* M\.?Tech *)
    dotted [("M", true); ("E", true)];                  (* M\.?E\.? *)
    dotted [("M", true); ("Sc", true)];                 (* M\.?Sc\.? *)
    dotted [("M", true); ("B", true); ("A", true)];     (* M\.?B\.?A\.? *)
    dotted [("M", true); ("C", true); ("A", true)];     (* M\.?C\.?A\.? *)
    dotted [("Ph", true); ("D", true)];                 (* Ph\.?D\.? *)
    lit_fold (py "Bachelor"); lit_fold (py "Master"); lit_fold (py "Doctor");
    lit_fold (py "Diploma"); lit_fold (py "High School");
    lit_fold (py "10th"); lit_fold (py "12th");
    lit_fold (py "Secondary"); lit_fold (py "Senior Secondary") ]%string.

(** [(?:a|b|...)]: the alternatives are tried in order. *)
Fixpoint alt_match {A : Type} (rs : list regex) (k : cont A) (prev : option Z)
    (s : str) : option A :=
  match rs with
  | [] => None
  | r :: rs' =>
      match matchre r k prev s with
      | Some x => Some x
      | None => alt_match rs' k prev s
      end
  end.

(** The degree pattern: a degree name, then up to 120 characters other than
    the line feed. *)
Definition degree_match {A : Type} (k : cont A) : cont A :=
  alt_match degree_names (matchre (times (fun c => negb (c =? LF)) 0 120) k).

(** [re.findall]: the successive matches, each search starting where the
    previous match ended (one character further after an empty match). *)
Fixpoint findall_with (fuel : nat) (m : cont str -> cont str) (prev : option Z)
    (s : str) : list str :=
  match fuel with
  | O => []
  | S fuel' =>
      match here_with m prev s with
      | Some [] =>
          [] :: match s with
                | [] => []
                | c :: s' => findall_with fuel' m (Some c) s'
                end
      | Some found =>
          found :: findall_with fuel' m (last (map Some found) prev)
                                (skipn (length found) s)
      | None =>
          match s with
          | [] => []
          | c :: s' => findall_with fuel' m (Some c) s'
          end
      end
  end.

(** [dict.fromkeys(l)]: the first occurrences, in order. *)
Fixpoint fromkeys (seen : list str) (l : list str) : list str :=
  match l with
  | [] => []
  | x :: l' =>
      if mem x seen then fromkeys seen l' else x :: fromkeys (x :: seen) l'
  end.

Definition extract_education (text : str) : str :=
  let content := _extract_section text education_keywords in
  if str_eqb content NOT_FOUND then
    match findall_with (S (length text)) degree_match None text with
    | [] => content
    | matches => join_nl (fromkeys [] (map strip (firstn 6 matches)))
    end
  else content.

(* ================================================================== *)
(** ** The upload filter of the application: [allowed_file] *)
(* ================================================================== *)

Definition ALLOWED_EXTENSIONS : list str := map py ["pdf"; "docx"; "doc"]%string.

(** [filename.rsplit(".", 1)[1]] when the name has a dot: the text after the
    last dot. *)
Fixpoint after_last_dot (filename : str) : option str :=
  match filename with
  | [] => None
  | c :: rest =>
      match after_last_dot rest with
      | Some ext => Some ext
      | None => if c =? 46 then Some rest else None
      end
  end.

Definition allowed_file (filename : str) : bool :=
  match after_last_dot filename with
  | Some ext => mem (py_lower ext) ALLOWED_EXTENSIONS
  | None => false
  end.

End Links.

(* ================================================================== *)
(** ** Notions used in the statements *)
(* ================================================================== *)

(** The set the first substitution keeps, written out. *)
Definition in_kept_set (c : Z) : Prop :=
  c = 9 \/ c = 10 \/ c = 13 \/ 32 <= c <= 126 \/ 160 <= c <= 65535.

(** A line without leading or trailing whitespace. *)
Definition stripped (l : str) : Prop := lstrip l = l /\ rstrip l = l.

(** The blank lines at the start, and at the end, of a list of lines. *)
Fixpoint ltrim (ls : list str) : list str :=
  match ls with
  | [] => []
  | l :: ls' => if is_empty l then ltrim ls' else ls
  end.

Fixpoint rtrim (ls : list str) : list str :=
  match ls with
  | [] => []
  | l :: ls' =>
      match rtrim ls' with
      | [] => if is_empty l then [] else [l]
      | r => l :: r
      end
  end.

(** No two blank lines in a row. *)
Fixpoint no_adjacent_blank (ls : list str) : Prop :=
  match ls with
  | [] => True
  | l :: ls' =>
      match ls' with
      | [] => True
      | l' :: _ => (l = [] -> l' <> []) /\ no_adjacent_blank ls'
      end
  end.

(** Lines that begin and end with a non-blank line and have no two blank
    lines in a row: the shape of a normalised text. *)
Inductive tight : list str -> Prop :=
| tight_one l : l <> [] -> tight [l]
| tight_cons l ls : l <> [] -> tight ls -> tight (l :: ls)
| tight_blank l ls : l <> [] -> tight ls -> tight (l :: [] :: ls).

(** What a character of a normalised text satisfies. *)
Definition clean_char (c : Z) : Prop := kept_char c = true /\ c <> CR.

Section PhoneNotions.
Context {U : UnicodeDB}.

(** A pattern contributes nothing: it has no match in the text, or its
    first match has fewer than 10 digits. *)
Definition rejected (pattern : regex) (text : str) : Prop :=
  search pattern text = None \/
  exists m, search pattern text = Some m /\
            (length (digits_of (phone_of_match m)) < 10)%nat.

(** What the loop computes over a list of patterns. *)
Definition phone_outcome (patterns : list regex) (text result : str) : Prop :=
  (exists i pattern m,
      nth_error patterns i = Some pattern /\
      search pattern text = Some m /\
      (10 <= length (digits_of (phone_of_match m)))%nat /\
      result = phone_of_match m /\
      forall j q, (j < i)%nat -> nth_error patterns j = Some q -> rejected q text)
  \/
  (result = NOT_FOUND /\ forall q, In q patterns -> rejected q text).

End PhoneNotions.

(** The reading "the first pattern that has any match decides alone": if
    no earlier pattern matches and [pattern] matches first at [m], the
    result is the cleaned [m] when it has 10 digits and the sentinel
    otherwise. *)
Definition first_matching_pattern_decides : Prop :=
  forall (U : UnicodeDB) (text : str) (i : nat) (pattern : regex) (m : str),
    nth_error phone_patterns i = Some pattern ->
    (forall j q, (j < i)%nat -> nth_error phone_patterns j = Some q ->
                 search q text = None) ->
    search pattern text = Some m ->
    extract_phone text =
      if enough_digits (phone_of_match m) then phone_of_match m else NOT_FOUND.

(** [w] occurs in [text]. *)
Definition occurs (w text : str) : Prop :=
  exists pre post, text = pre ++ w ++ post.

Definition letter_at (x : option Z) : bool :=
  match x with
  | Some c => is_ascii_letter c
  | None => false
  end.

(** [w] occurs in [text] at a place where the character before it and the
    character after it, when there is one, are not letters [A-Za-z]. *)
Definition occurs_bounded (w text : str) : Prop :=
  exists pre post,
    text = pre ++ w ++ post /\
    letter_at (last (map Some pre) None) = false /\
    letter_at (hd_error post) = false.

Section SkillNotions.
Context {U : UnicodeDB}.

(** A vocabulary entry is detected in a text when [extract_skills] reports
    its display form. *)
Definition detected (text skill : str) : Prop :=
  In (display_form skill) (extract_skills text).

End SkillNotions.

Definition str_lt (a b : str) : Prop := str_leb a b = true /\ a <> b.

(** [0 <= p <= 100] on floats. *)
Definition percentage_in_range (p : float) : bool :=
  PrimFloat.leb 0%float p && PrimFloat.leb p 100%float.

(** The percentages of all counts [matched <= total] for [1 <= total <= n]
    are in range. *)
Definition percentages_in_range (n : nat) : bool :=
  forallb (fun total =>
             forallb (fun matched => percentage_in_range (match_percentage matched total))
                     (List.seq 0 (S total)))
          (List.seq 1 n).

Section SectionNotions.
Context {U : UnicodeDB}.

(** The state reached after [lines] when the loop has not been left. *)
Fixpoint section_scan (section_keywords : list str) (st : section_state)
    (lines : list str) : option section_state :=
  match lines with
  | [] => Some st
  | line :: rest =>
      match section_step section_keywords st line with
      | Next st' => section_scan section_keywords st' rest
      | Break _ => None
      end
  end.

End SectionNotions.

(** Sample libraries: every document fails to open, no recogniser. *)
Definition unreadable : Libraries :=
  {| PdfReader := Some (fun _ => inl (py "cannot open"));
     Document := Some (fun _ => inl (py "cannot open"));
     nlp := None |}.

(** The character before the position reached after reading [m], when
    [prev] was the character before [m]. *)
Definition last_char (prev : option Z) (m : str) : option Z :=
  last (map Some m) prev.

(** The first character of [m] followed by what comes next. *)
Definition first_char (m : str) (next : option Z) : option Z :=
  match m with
  | c :: _ => Some c
  | [] => next
  end.

Definition within (hi : option nat) (n : nat) : Prop :=
  match hi with
  | None => True
  | Some h => (n <= h)%nat
  end.

Section RegexMeaning.
Context {U : UnicodeDB}.

(** What a pattern means: [means r prev m next] says that [m] is matched by
    [r] when [prev] is the character before [m] and [next] the character
    after it. *)
Fixpoint means (r : regex) (prev : option Z) (m : str) (next : option Z) : Prop :=
  match r with
  | Eps => m = []
  | Cls p => exists c, m = [c] /\ p c = true
  | Rep p lo hi =>
      Forall (fun c => p c = true) m /\ (lo <= length m)%nat /\ within hi (length m)
  | Seq r1 r2 =>
      exists m1 m2, m = m1 ++ m2 /\
                    means r1 prev m1 (first_char m2 next) /\
                    means r2 (last_char prev m1) m2 next
  | Opt r1 => m = [] \/ means r1 prev m next
  | WordB => m = [] /\ xorb (word_at prev) (word_at next) = true
  | NotBehind p => m = [] /\ match prev with Some c => p c = false | None => True end
  | NotAhead p => m = [] /\ match next with Some c => p c = false | None => True end
  end.

End RegexMeaning.

(** What one page, and one run of pages, adds to the text of a PDF. *)
Definition page_contribution (page_text : str) : str :=
  if is_empty page_text then [] else page_text ++ [LF].

(** Sample libraries: a PDF with two pages, the first without text. *)
Definition two_pages : Libraries :=
  {| PdfReader := Some (fun _ => inr [inr []; inr (join_nl [py "Jane Roe"; py "Python, SQL"])]);
     Document := None;
     nlp := None |}.

(** Sample libraries: a PDF whose only page holds blank characters. *)
Definition blank_page : Libraries :=
  {| PdfReader := Some (fun _ => inr [inr (py "  "); inr [9; 10]]);
     Document := None;
     nlp := None |}.

(** Sample libraries: a PDF whose second page cannot be read. *)
Definition broken_page : Libraries :=
  {| PdfReader := Some (fun _ => inr [inr (py "page one"); inl (py "bad stream")]);
     Document := None;
     nlp := None |}.

(** No whitespace character is followed by another one. *)
Fixpoint single_spaced (s : str) : Prop :=
  match s with
  | [] => True
  | c :: s' =>
      match s' with
      | [] => True
      | d :: _ => (is_space c = true -> is_space d = false) /\ single_spaced s'
      end
  end.

(** [l] is [w] letter by letter, up to the case folding of [re.IGNORECASE]. *)
Definition folds_to (w l : str) : Prop :=
  Forall2 (fun c x => fold_char c x = true) w l.

(** The guarantees of a profile URL: the sentinel, or a URL that starts
    with [https://] or whose lower-cased form starts with [http]. *)
Definition has_scheme {U : UnicodeDB} (r : str) : Prop :=
  r = NOT_FOUND \/ startswith (py "https://") r = true \/
  startswith (py "http") (py_lower r) = true.

(** The characters a name can be made of: ASCII letters, ASCII whitespace,
    the dot, the hyphen and the percent sign. *)
Definition name_char (c : Z) : bool :=
  is_ascii c && (is_ascii_letter c || is_space c || chr ".-%" c).

Section NameNotions.
Context {U : UnicodeDB}.




End NameNotions.


Section EducationNotions.
Context {U : UnicodeDB}.

(** [m] is a degree match: one of the degree names, up to case folding and
    with its optional dots, followed by at most 120 characters other than
    the line feed. *)
Definition degree_text (m : str) : Prop :=
  exists name rest,
    m = name ++ rest /\
    (exists r prev next, In r degree_names /\ means r prev name next) /\
    ~ In LF rest /\ (length rest <= 120)%nat.

End EducationNotions.

(** [parse_resume] refuses the extension: it raises the unsupported-format
    error, and no reader has been called. *)
Definition refused_as_unsupported {U : UnicodeDB} (L : Libraries)
    (file_path file_extension job_description : str) (calls : list event) : Prop :=
  parse_resume L file_path file_extension job_description calls =
  (inl (ValueError (unsupported_message (py_lower file_extension))), calls).

(* ================================================================== *)
(** * Properties *)
(* ================================================================== *)

(** ** The first substitution of [clean_text] *)

Lemma kept_char_iff (c : Z) : kept_char c = true <-> in_kept_set c.
Proof.
  unfold kept_char, in_kept_set, between.
  rewrite !orb_true_iff, !andb_true_iff, !Z.eqb_eq, !Z.leb_le. tauto.
Qed.

Lemma sub_nonprintable_length (text : str) :
  length (sub_nonprintable text) = length text.
Proof. unfold sub_nonprintable. apply length_map. Qed.

Lemma sub_nonprintable_nth (text : str) (i : nat) (c : Z) :
  nth_error text i = Some c ->
  nth_error (sub_nonprintable text) i = Some (if kept_char c then c else SP).
Proof.
  intros H. unfold sub_nonprintable.
  rewrite nth_error_map, H. reflexivity.
Qed.

(** The first substitution as the code has it: it keeps the length of the
    text and replaces by one space exactly the characters outside tab, LF,
    CR, U+0020..U+007E and U+00A0..U+FFFF; so a character from U+00A0 up to
    U+FFFF is preserved, and one above U+FFFF becomes a space. *)
Theorem sub_nonprintable_spec (text : str) (i : nat) (c : Z) :
  nth_error text i = Some c ->
  length (sub_nonprintable text) = length text /\
  (in_kept_set c -> nth_error (sub_nonprintable text) i = Some c) /\
  (~ in_kept_set c -> nth_error (sub_nonprintable text) i = Some 32) /\
  (160 <= c <= 65535 -> nth_error (sub_nonprintable text) i = Some c) /\
  (65535 < c -> nth_error (sub_nonprintable text) i = Some 32).
Proof.
  intros H. pose proof (sub_nonprintable_nth text i c H) as Hn.
  pose proof (kept_char_iff c) as Hk.
  split; [apply sub_nonprintable_length|].
  destruct (kept_char c) eqn:E; rewrite Hn.
  - assert (in_kept_set c) as Hin by (apply Hk; reflexivity).
    repeat split; intros; try reflexivity.
    + contradiction.
    + unfold in_kept_set in Hin. lia.
  - assert (~ in_kept_set c) as Hout by (intros Hc; apply Hk in Hc; discriminate).
    repeat split; intros; try reflexivity.
    + contradiction.
    + exfalso. apply Hout. unfold in_kept_set. lia.
Qed.

Lemma sub_nonprintable_spec_witness :
  nth_error [233; 7; 128512] 0 = Some 233 /\
  nth_error (sub_nonprintable [233; 7; 128512]) 0 = Some 233.
Proof.
  split; [reflexivity|].
  apply (sub_nonprintable_spec [233; 7; 128512] 0%nat 233 eq_refl).
  lia.
Defined.

(** C6: the code departs from the claim above U+FFFF.  The class of the
    first substitution ends at [\uFFFF], while the comment of the code
    speaks of non-printable and control characters only: U+1F600 is printable
    and at least U+00A0, and it is replaced by a space. *)
Lemma sub_nonprintable_astral :
  160 <= 128512 /\
  nth_error [128512] 0 = Some 128512 /\
  nth_error (sub_nonprintable [128512]) 0 = Some 32 /\
  Some 32 <> Some 128512.
Proof. repeat split; try reflexivity; try lia; discriminate. Qed.

(** The character is lost from the normalised text as well. *)
Lemma clean_text_astral : clean_text (py "Hi " ++ [128512]) = py "Hi".
Proof. vm_compute. reflexivity. Qed.

(** ** [clean_text] is idempotent *)

Section Strip.

Lemma lstrip_length (s : str) : (length (lstrip s) <= length s)%nat.
Proof.
  induction s as [|c s IH]; simpl; [lia|].
  destruct (is_space c); simpl; lia.
Qed.

Lemma lstrip_fixed_head (c : Z) (s : str) :
  lstrip (c :: s) = c :: s -> is_space c = false.
Proof.
  simpl. destruct (is_space c); [|reflexivity].
  intros H. pose proof (lstrip_length s) as Hl.
  rewrite H in Hl. simpl in Hl. lia.
Qed.

Lemma lstrip_idem (s : str) : lstrip (lstrip s) = lstrip s.
Proof.
  induction s as [|c s IH]; simpl; [reflexivity|].
  destruct (is_space c) eqn:E; [exact IH|].
  simpl. rewrite E. reflexivity.
Qed.

Lemma rstrip_nil_iff (s : str) : rstrip s = [] <-> forallb is_space s = true.
Proof.
  induction s as [|c s IH]; simpl; [tauto|].
  destruct (rstrip s) as [|r rs] eqn:E.
  - destruct (is_space c); simpl.
    + split; intros _; [apply IH|]; reflexivity.
    + split; discriminate.
  - split; [discriminate|].
    rewrite andb_true_iff. intros [_ H]. apply IH in H. discriminate.
Qed.

Lemma rstrip_app (a b : str) :
  rstrip (a ++ b) = match rstrip b with [] => rstrip a | _ :: _ => a ++ rstrip b end.
Proof.
  induction a as [|c a IH]; simpl.
  - destruct (rstrip b); reflexivity.
  - rewrite IH. destruct (rstrip b) as [|r rs] eqn:E; [reflexivity|].
    destruct (a ++ r :: rs) eqn:E2; [|reflexivity].
    destruct a; discriminate.
Qed.

Lemma rstrip_idem (s : str) : rstrip (rstrip s) = rstrip s.
Proof.
  induction s as [|c s IH]; simpl; [reflexivity|].
  destruct (rstrip s) as [|r rs] eqn:E.
  - destruct (is_space c) eqn:Ec; simpl; [reflexivity|]. rewrite Ec. reflexivity.
  - simpl in IH |- *. rewrite IH. reflexivity.
Qed.

Lemma rstrip_head (c : Z) (s : str) :
  is_space c = false -> rstrip (c :: s) = c :: rstrip s.
Proof.
  intros H. simpl. destruct (rstrip s); [rewrite H|]; reflexivity.
Qed.

Lemma lstrip_rstrip (s : str) : lstrip s = s -> lstrip (rstrip s) = rstrip s.
Proof.
  destruct s as [|c s]; [reflexivity|].
  intros H. apply lstrip_fixed_head in H.
  rewrite (rstrip_head c s H). simpl. rewrite H. reflexivity.
Qed.

Lemma strip_stripped (s : str) : stripped (strip s).
Proof.
  unfold stripped, strip. split.
  - apply lstrip_rstrip, lstrip_idem.
  - apply rstrip_idem.
Qed.

Lemma strip_fixed (s : str) : stripped s -> strip s = s.
Proof. intros [H1 H2]. unfold strip. rewrite H1. exact H2. Qed.

Lemma Forall_lstrip (P : Z -> Prop) (s : str) : Forall P s -> Forall P (lstrip s).
Proof.
  induction 1 as [|c s Hc Hs IH]; simpl; [constructor|].
  destruct (is_space c); [exact IH|constructor; assumption].
Qed.

Lemma Forall_rstrip (P : Z -> Prop) (s : str) : Forall P s -> Forall P (rstrip s).
Proof.
  induction 1 as [|c s Hc Hs IH]; simpl; [constructor|].
  destruct (rstrip s) as [|r rs].
  - destruct (is_space c); repeat constructor; assumption.
  - constructor; assumption.
Qed.

Lemma Forall_strip (P : Z -> Prop) (s : str) : Forall P s -> Forall P (strip s).
Proof. intros H. apply Forall_rstrip, Forall_lstrip, H. Qed.

End Strip.

Section Lines.

Lemma join_nl_cons (l : str) (ls : list str) :
  ls <> [] -> join_nl (l :: ls) = l ++ LF :: join_nl ls.
Proof. destruct ls; [congruence|reflexivity]. Qed.

Lemma join_nl_blank_head (ls : list str) :
  join_nl ([] :: ls) = match ls with [] => [] | _ :: _ => LF :: join_nl ls end.
Proof. destruct ls; reflexivity. Qed.

Lemma tight_not_nil (ls : list str) : tight ls -> ls <> [].
Proof. destruct 1; discriminate. Qed.

Lemma tight_head (ls : list str) :
  tight ls -> exists l ls', ls = l :: ls' /\ l <> [].
Proof. destruct 1; eauto. Qed.

Lemma join_tight_not_nil (ls : list str) : tight ls -> join_nl ls <> [].
Proof.
  intros H. destruct (tight_head ls H) as (l & ls' & -> & Hl).
  destruct ls'; simpl.
  - exact Hl.
  - destruct l; [congruence|discriminate].
Qed.

(** Splitting at line feeds undoes joining. *)
Lemma split_nl_line (l : str) : ~ In LF l -> split_nl l = [l].
Proof.
  induction l as [|c l IH]; simpl; [reflexivity|].
  intros H. destruct (Z.eqb_spec c LF) as [->|Hc]; [tauto|].
  rewrite IH by tauto. reflexivity.
Qed.

Lemma split_nl_app (l s : str) :
  ~ In LF l -> split_nl (l ++ LF :: s) = l :: split_nl s.
Proof.
  induction l as [|c l IH]; simpl; intros H.
  - reflexivity.
  - destruct (Z.eqb_spec c LF) as [->|Hc]; [tauto|].
    rewrite IH by tauto. reflexivity.
Qed.

Lemma split_join_nl (ls : list str) :
  ls <> [] -> Forall (fun l => ~ In LF l) ls -> split_nl (join_nl ls) = ls.
Proof.
  induction ls as [|l ls IH]; [congruence|].
  intros _ H. inversion H as [|? ? Hl Hls]; subst.
  destruct ls as [|l' ls'].
  - simpl. apply split_nl_line, Hl.
  - rewrite join_nl_cons by discriminate.
    rewrite split_nl_app by exact Hl.
    rewrite IH; [reflexivity|discriminate|exact Hls].
Qed.

Lemma split_nl_no_lf (s : str) : Forall (fun l => ~ In LF l) (split_nl s).
Proof.
  induction s as [|c s IH]; simpl.
  - repeat constructor. intros [].
  - destruct (Z.eqb_spec c LF) as [->|Hc].
    + constructor; [intros []|exact IH].
    + destruct (split_nl s) as [|l ls].
      * repeat constructor. simpl. intros [H|[]]. congruence.
      * inversion IH; subst. constructor; [|assumption].
        simpl. intros [H|H]; [congruence|contradiction].
Qed.

Lemma split_nl_Forall (P : Z -> Prop) (s : str) :
  Forall P s -> Forall (Forall P) (split_nl s).
Proof.
  induction 1 as [|c s Hc Hs IH]; simpl.
  - repeat constructor.
  - destruct (c =? LF).
    + constructor; [constructor|exact IH].
    + destruct (split_nl s) as [|l ls].
      * repeat constructor. exact Hc.
      * inversion IH; subst. constructor; [constructor|]; assumption.
Qed.

Lemma join_nl_Forall (P : Z -> Prop) (ls : list str) :
  P LF -> Forall (Forall P) ls -> Forall P (join_nl ls).
Proof.
  intros HP. induction 1 as [|l ls Hl Hls IH]; [constructor|].
  destruct ls as [|l' ls'].
  - exact Hl.
  - rewrite join_nl_cons by discriminate.
    apply Forall_app. split; [exact Hl|]. constructor; [exact HP|exact IH].
Qed.

Lemma no_lf_sublist (l : str) : ~ In LF l -> ~ In LF (strip l).
Proof.
  intros H Hin. apply H.
  assert (Forall (fun c => c <> LF) l) as HF.
  { apply Forall_forall. intros x Hx ->. exact (H Hx). }
  apply (Forall_strip _ _) in HF.
  rewrite Forall_forall in HF. exfalso. exact (HF LF Hin eq_refl).
Qed.

(** Stripping a joined text trims its blank lines. *)
Lemma lstrip_join (ls : list str) :
  Forall stripped ls -> lstrip (join_nl ls) = join_nl (ltrim ls).
Proof.
  induction 1 as [|l ls Hl Hls IH]; [reflexivity|].
  destruct l as [|c l].
  - rewrite join_nl_blank_head. simpl ltrim.
    destruct ls; [reflexivity|]. exact IH.
  - destruct Hl as [Hl _]. apply lstrip_fixed_head in Hl.
    simpl ltrim.
    destruct ls; simpl; rewrite Hl; reflexivity.
Qed.

Lemma rtrim_nil_or_join (ls : list str) :
  rtrim ls = [] \/ join_nl (rtrim ls) <> [].
Proof.
  induction ls as [|l ls IH]; simpl; [left; reflexivity|].
  destruct (rtrim ls) as [|r rs] eqn:E.
  - destruct l; simpl; [left; reflexivity|right; discriminate].
  - right. rewrite join_nl_cons by discriminate.
    destruct l; discriminate.
Qed.

Lemma rstrip_join (ls : list str) :
  Forall stripped ls -> rstrip (join_nl ls) = join_nl (rtrim ls).
Proof.
  induction 1 as [|l ls Hl Hls IH]; [reflexivity|].
  destruct Hl as [_ Hr].
  destruct ls as [|l' ls'].
  - unfold join_nl. cbn [join rtrim]. rewrite Hr. destruct l; reflexivity.
  - rewrite join_nl_cons by discriminate.
    rewrite rstrip_app.
    change (rstrip (LF :: join_nl (l' :: ls')))
      with (match rstrip (join_nl (l' :: ls')) with
            | [] => if is_space LF then [] else [LF]
            | r => LF :: r
            end).
    rewrite IH.
    change (rtrim (l :: l' :: ls'))
      with (match rtrim (l' :: ls') with
            | [] => if is_empty l then [] else [l]
            | r => l :: r
            end).
    destruct (rtrim_nil_or_join (l' :: ls')) as [E|E].
    + rewrite E. simpl. rewrite Hr. destruct l; reflexivity.
    + destruct (rtrim (l' :: ls')) as [|r rs] eqn:Er; [exfalso; apply E; reflexivity|].
      destruct (join_nl (r :: rs)) as [|j js] eqn:Ej; [congruence|].
      rewrite join_nl_cons by discriminate. rewrite Ej. reflexivity.
Qed.

Lemma Forall_ltrim (P : str -> Prop) (ls : list str) :
  Forall P ls -> Forall P (ltrim ls).
Proof.
  induction 1 as [|l ls Hl Hls IH]; simpl; [constructor|].
  destruct (is_empty l); [exact IH|constructor; assumption].
Qed.

Lemma Forall_rtrim (P : str -> Prop) (ls : list str) :
  Forall P ls -> Forall P (rtrim ls).
Proof.
  induction 1 as [|l ls Hl Hls IH]; simpl; [constructor|].
  destruct (rtrim ls).
  - destruct (is_empty l); repeat constructor; assumption.
  - constructor; assumption.
Qed.

Lemma strip_join (ls : list str) :
  Forall stripped ls -> strip (join_nl ls) = join_nl (rtrim (ltrim ls)).
Proof.
  intros H. unfold strip. rewrite lstrip_join by exact H.
  apply rstrip_join, Forall_ltrim, H.
Qed.

End Lines.

Section Blank.

Lemma drop_repeated_blank_head (b : bool) (ls : list str) :
  b = true ->
  match drop_repeated_blank b ls with
  | [] => True
  | l :: _ => l <> []
  end.
Proof.
  intros ->. induction ls as [|l ls IH]; simpl; [exact I|].
  destruct l; simpl; [exact IH|discriminate].
Qed.

Lemma drop_repeated_blank_spaced (b : bool) (ls : list str) :
  no_adjacent_blank (drop_repeated_blank b ls).
Proof.
  revert b. induction ls as [|l ls IH]; intros b; simpl; [exact I|].
  destruct l as [|c l]; simpl.
  - destruct b; [apply IH|].
    pose proof (drop_repeated_blank_head true ls eq_refl) as Hh.
    specialize (IH true).
    destruct (drop_repeated_blank true ls) as [|l' r]; [exact I|].
    split; [intros _; exact Hh|exact IH].
  - specialize (IH false).
    destruct (drop_repeated_blank false ls) as [|l' r]; [exact I|].
    split; [discriminate|exact IH].
Qed.

Lemma Forall_drop_repeated_blank (P : str -> Prop) (b : bool) (ls : list str) :
  Forall P ls -> Forall P (drop_repeated_blank b ls).
Proof.
  intros H. revert b. induction H as [|l ls Hl Hls IH]; intros b; simpl; [constructor|].
  destruct (is_empty l); [destruct b|]; try constructor; auto.
Qed.

Lemma no_adjacent_blank_tail (l : str) (ls : list str) :
  no_adjacent_blank (l :: ls) -> no_adjacent_blank ls.
Proof. destruct ls; simpl; tauto. Qed.

Lemma ltrim_spaced (ls : list str) :
  no_adjacent_blank ls -> no_adjacent_blank (ltrim ls).
Proof.
  induction ls as [|l ls IH]; intros H; [exact I|].
  simpl ltrim. destruct (is_empty l); [|exact H].
  apply IH, (no_adjacent_blank_tail l), H.
Qed.

Lemma ltrim_head (ls : list str) :
  match ltrim ls with
  | [] => True
  | l :: _ => l <> []
  end.
Proof.
  induction ls as [|l ls IH]; simpl; [exact I|].
  destruct l; simpl; [exact IH|discriminate].
Qed.

Lemma rtrim_head (ls : list str) (l : str) (r : list str) :
  rtrim ls = l :: r -> exists t, ls = l :: t.
Proof.
  destruct ls as [|l0 t]; simpl; [discriminate|].
  destruct (rtrim t).
  - destruct (is_empty l0); [discriminate|].
    intros H. injection H as <- _. eauto.
  - intros H. injection H as <- _. eauto.
Qed.

(** Trimming the end of spaced lines leaves a tight list, up to one blank
    line at the start. *)
Lemma rtrim_tight (ls : list str) :
  no_adjacent_blank ls ->
  match rtrim ls with
  | [] => True
  | l :: r => (l <> [] -> tight (l :: r)) /\ (l = [] -> tight r)
  end.
Proof.
  induction ls as [|l ls IH]; intros H; [exact I|].
  specialize (IH (no_adjacent_blank_tail l ls H)).
  simpl rtrim.
  destruct (rtrim ls) as [|l2 r] eqn:E.
  - destruct l as [|c l]; simpl; [exact I|].
    split; [intros _; constructor; discriminate|discriminate].
  - destruct IH as [IH1 IH2].
    destruct (rtrim_head ls l2 r E) as [t ->].
    split.
    + intros Hl. destruct l2 as [|c2 l2].
      * apply tight_blank; [exact Hl|]. apply IH2. reflexivity.
      * apply tight_cons; [exact Hl|]. apply IH1. discriminate.
    + intros ->. apply IH1. simpl in H. apply H. reflexivity.
Qed.

Lemma trim_tight (ls : list str) :
  no_adjacent_blank ls ->
  rtrim (ltrim ls) = [] \/ tight (rtrim (ltrim ls)).
Proof.
  intros H. pose proof (rtrim_tight _ (ltrim_spaced ls H)) as Ht.
  pose proof (ltrim_head ls) as Hh.
  destruct (rtrim (ltrim ls)) as [|l r] eqn:E; [left; reflexivity|].
  right. apply Ht.
  destruct (rtrim_head _ _ _ E) as [t Et]. rewrite Et in Hh. exact Hh.
Qed.

(** Fixed points on tight lists. *)
Lemma ltrim_tight_id (ls : list str) : tight ls -> ltrim ls = ls.
Proof. destruct 1 as [l Hl|l ls Hl _|l ls Hl _]; destruct l; simpl; congruence. Qed.

Lemma rtrim_tight_id (ls : list str) : tight ls -> rtrim ls = ls.
Proof.
  induction 1 as [l Hl|l ls Hl Ht IH|l ls Hl Ht IH].
  - destruct l; [exfalso; apply Hl; reflexivity|reflexivity].
  - cbn [rtrim]. rewrite IH.
    destruct ls; [exfalso; exact (tight_not_nil _ Ht eq_refl)|reflexivity].
  - cbn [rtrim is_empty]. rewrite IH.
    destruct ls; [exfalso; exact (tight_not_nil _ Ht eq_refl)|reflexivity].
Qed.

Lemma drop_repeated_blank_tight (b : bool) (ls : list str) :
  tight ls -> drop_repeated_blank b ls = ls.
Proof.
  intros H. revert b.
  induction H as [l Hl|l ls Hl Ht IH|l ls Hl Ht IH]; intros b;
    destruct l as [|c l]; try congruence; simpl.
  - reflexivity.
  - rewrite IH. reflexivity.
  - rewrite IH. reflexivity.
Qed.

Lemma strip_join_tight (ls : list str) :
  Forall stripped ls -> tight ls -> strip (join_nl ls) = join_nl ls.
Proof.
  intros Hs Ht. rewrite strip_join by exact Hs.
  rewrite ltrim_tight_id, rtrim_tight_id by assumption. reflexivity.
Qed.

End Blank.

Section Runs.

Lemma emit_newlines_small (k : nat) : (k <= 2)%nat -> emit_newlines k = repeat LF k.
Proof.
  intros H. unfold emit_newlines.
  destruct (Nat.leb_spec 3 k); [lia|reflexivity].
Qed.

Lemma sub_blank_runs_plain (l s : str) :
  ~ In LF l -> sub_blank_runs 0 (l ++ s) = l ++ sub_blank_runs 0 s.
Proof.
  induction l as [|c l IH]; intros H; [reflexivity|].
  simpl. destruct (Z.eqb_spec c LF) as [->|Hc]; [simpl in H; tauto|].
  simpl. rewrite IH by (simpl in H; tauto). reflexivity.
Qed.

Lemma sub_blank_runs_line (k : nat) (l s : str) :
  (k <= 2)%nat -> l <> [] -> ~ In LF l ->
  sub_blank_runs k (l ++ s) = repeat LF k ++ l ++ sub_blank_runs 0 s.
Proof.
  intros Hk Hl H. destruct l as [|c l]; [congruence|].
  simpl. destruct (Z.eqb_spec c LF) as [->|Hc]; [simpl in H; tauto|].
  rewrite emit_newlines_small by exact Hk.
  rewrite sub_blank_runs_plain by (simpl in H; tauto). reflexivity.
Qed.

Lemma sub_blank_runs_lf (k : nat) (s : str) :
  sub_blank_runs k (LF :: s) = sub_blank_runs (S k) s.
Proof. reflexivity. Qed.

Lemma sub_blank_runs_tight (ls : list str) :
  tight ls -> Forall (fun l => ~ In LF l) ls ->
  forall k, (k <= 2)%nat -> sub_blank_runs k (join_nl ls) = repeat LF k ++ join_nl ls.
Proof.
  induction 1 as [l Hl|l ls Hl Ht IH|l ls Hl Ht IH]; intros HF k Hk.
  - inversion HF; subst. unfold join_nl; cbn [join].
    rewrite <- (app_nil_r l) at 1.
    rewrite sub_blank_runs_line by assumption.
    simpl. rewrite app_nil_r. reflexivity.
  - inversion HF; subst.
    rewrite join_nl_cons by (apply tight_not_nil, Ht).
    rewrite sub_blank_runs_line by assumption.
    rewrite sub_blank_runs_lf, IH by (assumption || lia). reflexivity.
  - inversion HF as [|? ? H1 H2]; subst. inversion H2; subst.
    rewrite join_nl_cons by discriminate.
    rewrite join_nl_blank_head.
    pose proof (tight_not_nil ls Ht) as Hn.
    destruct ls as [|l' ls']; [congruence|].
    rewrite sub_blank_runs_line by assumption.
    rewrite !sub_blank_runs_lf, IH by (assumption || lia). reflexivity.
Qed.

Lemma Forall_emit_newlines (P : Z -> Prop) (k : nat) : P LF -> Forall P (emit_newlines k).
Proof.
  intros H. unfold emit_newlines. destruct (3 <=? k)%nat.
  - repeat constructor; exact H.
  - apply Forall_forall. intros x Hx. apply repeat_spec in Hx. subst. exact H.
Qed.

Lemma Forall_sub_blank_runs (P : Z -> Prop) (k : nat) (s : str) :
  P LF -> Forall P s -> Forall P (sub_blank_runs k s).
Proof.
  intros HP H. revert k. induction H as [|c s Hc Hs IH]; intros k; simpl.
  - apply Forall_emit_newlines, HP.
  - destruct (c =? LF); [apply IH|].
    apply Forall_app. split; [apply Forall_emit_newlines, HP|].
    constructor; [exact Hc|apply IH].
Qed.

End Runs.

Section LineEndings.

Lemma replace_crlf_step (c d : Z) (s : str) :
  replace_crlf (c :: d :: s) =
  if (c =? CR) && (d =? LF) then LF :: replace_crlf s else c :: replace_crlf (d :: s).
Proof. reflexivity. Qed.

Lemma replace_crlf_Forall (P : Z -> Prop) (s : str) :
  P LF -> Forall P s -> Forall P (replace_crlf s).
Proof.
  intros HP. remember (length s) as n eqn:En.
  revert s En. induction n as [n IH] using lt_wf_ind. intros s En H.
  destruct s as [|c [|d s]]; [constructor|exact H|].
  rewrite replace_crlf_step.
  - inversion H as [|? ? Hc H']; subst. inversion H' as [|? ? Hd H'']; subst.
    destruct ((c =? CR) && (d =? LF)).
    + constructor; [exact HP|].
      apply (IH (length s)); [try rewrite En; simpl; lia|reflexivity|exact H''].
    + constructor; [exact Hc|].
      apply (IH (length (d :: s))); [try rewrite En; simpl; lia|reflexivity|exact H'].
Qed.

Lemma replace_crlf_fixed (s : str) : ~ In CR s -> replace_crlf s = s.
Proof.
  remember (length s) as n eqn:En.
  revert s En. induction n as [n IH] using lt_wf_ind. intros s En H.
  destruct s as [|c [|d s]]; try reflexivity.
  rewrite replace_crlf_step.
  destruct (Z.eqb_spec c CR) as [->|Hc]; [simpl in H; tauto|].
  simpl andb. cbv iota. f_equal.
  apply (IH (length (d :: s))); [try rewrite En; simpl; lia|reflexivity|].
  simpl in H |- *. tauto.
Qed.

Lemma replace_cr_clean (s : str) :
  Forall (fun c => kept_char c = true) s -> Forall clean_char (replace_cr s).
Proof.
  induction 1 as [|c s Hc Hs IH]; simpl; [constructor|].
  constructor; [|exact IH].
  destruct (Z.eqb_spec c CR) as [->|Hn]; split; try assumption; try reflexivity.
  discriminate.
Qed.

Lemma replace_cr_fixed (s : str) : ~ In CR s -> replace_cr s = s.
Proof.
  induction s as [|c s IH]; intros H; [reflexivity|].
  simpl. destruct (Z.eqb_spec c CR) as [->|Hc]; [simpl in H; tauto|].
  rewrite IH by (simpl in H; tauto). reflexivity.
Qed.

Lemma sub_nonprintable_kept (s : str) :
  Forall (fun c => kept_char c = true) (sub_nonprintable s).
Proof.
  induction s as [|c s IH]; simpl; constructor; [|exact IH].
  destruct (kept_char c) eqn:E; [exact E|reflexivity].
Qed.

Lemma sub_nonprintable_fixed (s : str) :
  Forall (fun c => kept_char c = true) s -> sub_nonprintable s = s.
Proof.
  unfold sub_nonprintable.
  induction 1 as [|c s Hc Hs IH]; simpl; [reflexivity|].
  rewrite Hc, IH. reflexivity.
Qed.

End LineEndings.

Section Idempotence.

Lemma clean_char_all (s : str) :
  Forall clean_char s -> Forall (fun c => kept_char c = true) s /\ ~ In CR s.
Proof.
  intros H. split.
  - eapply Forall_impl; [|exact H]. intros c [Hc _]. exact Hc.
  - intros Hin. rewrite Forall_forall in H. destruct (H CR Hin) as [_ Hn]. congruence.
Qed.

(** The lines [clean_text] joins: each is stripped, has no line feed and
    only clean characters, and no two blank lines follow each other. *)
Lemma cleaned_lines (text : str) :
  let lines :=
    drop_repeated_blank false
      (map strip (split_nl (sub_blank_runs 0
         (replace_cr (replace_crlf (sub_nonprintable text)))))) in
  Forall stripped lines /\
  Forall (fun l => ~ In LF l) lines /\
  Forall (Forall clean_char) lines /\
  no_adjacent_blank lines.
Proof.
  intros lines. subst lines.
  set (t := sub_blank_runs 0 (replace_cr (replace_crlf (sub_nonprintable text)))).
  assert (Forall clean_char t) as Ht.
  { apply Forall_sub_blank_runs; [split; [reflexivity|discriminate]|].
    apply replace_cr_clean, replace_crlf_Forall; [reflexivity|].
    apply sub_nonprintable_kept. }
  repeat split.
  - apply Forall_drop_repeated_blank. apply Forall_map.
    apply Forall_forall. intros l _. apply strip_stripped.
  - apply Forall_drop_repeated_blank. apply Forall_map.
    eapply Forall_impl; [|apply split_nl_no_lf]. intros l. apply no_lf_sublist.
  - apply Forall_drop_repeated_blank. apply Forall_map.
    eapply Forall_impl; [|apply split_nl_Forall, Ht]. intros l. apply Forall_strip.
  - apply drop_repeated_blank_spaced.
Qed.

(** A normalised text is the join of a tight list of clean stripped lines,
    or is empty. *)
Lemma clean_text_shape (text : str) :
  clean_text text = [] \/
  exists ls, clean_text text = join_nl ls /\ tight ls /\
             Forall stripped ls /\ Forall (fun l => ~ In LF l) ls /\
             Forall (Forall clean_char) ls.
Proof.
  destruct (cleaned_lines text) as (Hs & Hn & Hc & Ha).
  unfold clean_text. cbv zeta.
  set (lines := drop_repeated_blank false _) in *.
  rewrite strip_join by exact Hs.
  destruct (trim_tight lines Ha) as [E|Ht].
  - left. rewrite E. reflexivity.
  - right. exists (rtrim (ltrim lines)).
    repeat split; try assumption; apply Forall_rtrim, Forall_ltrim; assumption.
Qed.

(** A text of that shape is left unchanged. *)
Lemma clean_text_fixed (ls : list str) :
  tight ls -> Forall stripped ls -> Forall (fun l => ~ In LF l) ls ->
  Forall (Forall clean_char) ls ->
  clean_text (join_nl ls) = join_nl ls.
Proof.
  intros Ht Hs Hn Hc.
  assert (Forall clean_char (join_nl ls)) as Hj.
  { apply join_nl_Forall; [split; [reflexivity|discriminate]|exact Hc]. }
  destruct (clean_char_all _ Hj) as [Hk Hcr].
  unfold clean_text. cbv zeta.
  rewrite sub_nonprintable_fixed by exact Hk.
  rewrite replace_crlf_fixed, replace_cr_fixed by exact Hcr.
  rewrite (sub_blank_runs_tight ls Ht Hn 0%nat) by lia.
  cbn [repeat app].
  rewrite split_join_nl by (try apply tight_not_nil; assumption).
  assert (map strip ls = ls) as ->.
  { clear -Hs. induction Hs as [|l ls Hl _ IH]; simpl; [reflexivity|].
    rewrite IH, strip_fixed by exact Hl. reflexivity. }
  rewrite drop_repeated_blank_tight by exact Ht.
  apply strip_join_tight; assumption.
Qed.

(** C2: the normaliser is idempotent. *)
Theorem clean_text_idempotent (t : str) : clean_text (clean_text t) = clean_text t.
Proof.
  destruct (clean_text_shape t) as [E|(ls & E & Ht & Hs & Hn & Hc)]; rewrite E.
  - reflexivity.
  - apply clean_text_fixed; assumption.
Qed.

End Idempotence.

(** ** [extract_phone] *)

Section Phone.
Context {U : UnicodeDB}.

Lemma enough_digits_true (phone : str) :
  enough_digits phone = true <-> (10 <= length (digits_of phone))%nat.
Proof. unfold enough_digits. apply Nat.leb_le. Qed.

Lemma enough_digits_false (phone : str) :
  enough_digits phone = false <-> (length (digits_of phone) < 10)%nat.
Proof. unfold enough_digits. apply Nat.leb_gt. Qed.

Lemma phone_loop_outcome (patterns : list regex) (text : str) :
  phone_outcome patterns text (phone_loop patterns text).
Proof.
  induction patterns as [|p ps IH].
  - right. split; [reflexivity|]. intros q [].
  - assert (rejected p text -> phone_outcome (p :: ps) text (phone_loop ps text)) as Hskip.
    { intros Hr. destruct IH as [(i & q & m & Hi & Hm & Hd & He & Hj)|[He Hall]].
      - left. exists (S i), q, m. repeat split; try assumption.
        intros j q' Hlt Hq. destruct j as [|j]; simpl in Hq.
        + injection Hq as <-. exact Hr.
        + apply (Hj j); [lia|exact Hq].
      - right. split; [exact He|].
        intros q [<-|Hq]; [exact Hr|apply Hall, Hq]. }
    simpl. destruct (search p text) as [m|] eqn:Es.
    + destruct (enough_digits (phone_of_match m)) eqn:Ed.
      * left. exists 0%nat, p, m. repeat split; try assumption.
        -- apply enough_digits_true, Ed.
        -- intros j q Hlt. lia.
      * apply Hskip. right. exists m. split; [exact Es|].
        apply enough_digits_false, Ed.
    + apply Hskip. left. exact Es.
Qed.

(** C3 (as amended): the patterns are tried in order; a pattern with no
    match, or whose first match (whitespace collapsed) has fewer than 10
    digits, is passed over and the next one is consulted; the result is the
    cleaned first match of the first pattern that is not passed over, and the
    sentinel when every pattern is passed over. *)
Theorem extract_phone_outcome (text : str) :
  phone_outcome phone_patterns text (extract_phone text).
Proof. apply phone_loop_outcome. Qed.

End Phone.

(** The examples of the specification. *)
Lemma extract_phone_accepts {U : UnicodeDB} :
  extract_phone (py "+1 (555) 867-5309") = py "+1 (555) 867-5309".
Proof. vm_compute. reflexivity. Qed.

Lemma extract_phone_rejects {U : UnicodeDB} :
  extract_phone (py "12345") = NOT_FOUND.
Proof. vm_compute. reflexivity. Qed.

(** A first pattern that matches nine digits does not end the search. *)
Lemma extract_phone_falls_through {U : UnicodeDB} :
  let text := py "+1 2 345 6789 and 555-123-4567" in
  search (nth 0 phone_patterns Eps) text = Some (py "+1 2 345 6789") /\
  enough_digits (phone_of_match (py "+1 2 345 6789")) = false /\
  extract_phone text = py "555-123-4567".
Proof. vm_compute. repeat split. Qed.

(** C3 as stated fails: on ["+1 2 345 6789 and 555-123-4567"] the first
    pattern is the first with a match, its match has 9 digits, and the
    result is the match of the third pattern, not the sentinel. *)
Lemma first_matching_pattern_does_not_decide : ~ first_matching_pattern_decides.
Proof.
  intros H.
  destruct (@extract_phone_falls_through plain_db) as (Hs & Hd & He).
  pose proof (H plain_db _ 0%nat _ _ eq_refl
                (fun j q (Hj : (j < 0)%nat) _ => match Nat.nlt_0_r j Hj with end)
                Hs) as H1.
  rewrite Hd, He in H1. vm_compute in H1. discriminate.
Qed.

(** ** The matcher on literal patterns *)

Section Literal.
Context {U : UnicodeDB}.

Lemma str_eqb_eq (a b : str) : str_eqb a b = true <-> a = b.
Proof.
  revert b. induction a as [|x a IH]; intros [|y b]; simpl; split;
    try discriminate; try reflexivity.
  - rewrite andb_true_iff, Z.eqb_eq, IH. intros [-> ->]. reflexivity.
  - intros H. injection H as -> ->. rewrite Z.eqb_refl. apply IH. reflexivity.
Qed.

Lemma mem_In (x : str) (l : list str) : mem x l = true <-> In x l.
Proof.
  unfold mem. rewrite existsb_exists. split.
  - intros (y & Hy & E). apply str_eqb_eq in E. subst. exact Hy.
  - intros H. exists x. split; [exact H|]. apply str_eqb_eq. reflexivity.
Qed.

Lemma startswith_app (w s : str) :
  startswith w s = true <-> exists post, s = w ++ post.
Proof.
  revert s. induction w as [|c w IH]; intros s; simpl.
  - split; [intros _; exists s; reflexivity|reflexivity].
  - destruct s as [|x s].
    + split; [discriminate|]. intros [post H]. discriminate.
    + rewrite andb_true_iff, Z.eqb_eq, IH. split.
      * intros [-> [post ->]]. exists post. reflexivity.
      * intros [post H]. injection H as -> ->. split; [reflexivity|eauto].
Qed.

Lemma last_cons_default {A : Type} (a d : A) (l : list A) :
  last (a :: l) d = last l a.
Proof.
  revert a d. induction l as [|b l IH]; intros a d; [reflexivity|].
  change (last (a :: b :: l) d) with (last (b :: l) d).
  rewrite !IH. reflexivity.
Qed.

(** A literal matches exactly when the text starts with it. *)
Lemma matchre_lit {A : Type} (w : str) (k : cont A) (prev : option Z) (s : str) :
  matchre (lit w) k prev s =
  if startswith w s then k (last (map Some w) prev) (skipn (length w) s) else None.
Proof.
  revert prev s. induction w as [|c w IH]; intros prev s; [reflexivity|].
  cbn [lit matchre startswith]. destruct s as [|x s]; [reflexivity|].
  destruct (Z.eqb_spec c x) as [->|Hn]; [|reflexivity].
  rewrite IH. cbn [andb map length skipn].
  rewrite last_cons_default. reflexivity.
Qed.

Lemma search_from_some (r : regex) (prev : option Z) (s : str) :
  search_from r prev s <> None <->
  exists pre post, s = pre ++ post /\
                   match_here r (last (map Some pre) prev) post <> None.
Proof.
  revert prev. induction s as [|c s IH]; intros prev.
  - split.
    + intros H. exists [], []. split; [reflexivity|].
      simpl. intros E. apply H. cbn [search_from]. rewrite E. reflexivity.
    + intros (pre & post & E & H).
      symmetry in E. apply app_eq_nil in E. destruct E as [-> ->].
      simpl in H. cbn [search_from].
      destruct (match_here r prev []); [discriminate|exact H].
  - cbn [search_from]. destruct (match_here r prev (c :: s)) as [m|] eqn:Em.
    + split; [|discriminate]. intros _. exists [], (c :: s).
      split; [reflexivity|]. simpl. rewrite Em. discriminate.
    + rewrite IH. split.
      * intros (pre & post & -> & H). exists (c :: pre), post.
        split; [reflexivity|]. cbn [map]. rewrite last_cons_default. exact H.
      * intros (pre & post & E & H). destruct pre as [|x pre].
        -- simpl in E, H. subst post. congruence.
        -- injection E as -> ->. exists pre, post. split; [reflexivity|].
           cbn [map] in H. rewrite last_cons_default in H. exact H.
Qed.

Lemma match_here_lit (w : str) (prev : option Z) (s : str) :
  match_here (lit w) prev s <> None <-> startswith w s = true.
Proof.
  unfold match_here. rewrite matchre_lit.
  destruct (startswith w s); split; congruence.
Qed.

Lemma match_here_bounded (w : str) (prev : option Z) (s : str) :
  match_here (Seq (NotBehind is_ascii_letter)
                  (Seq (lit w) (NotAhead is_ascii_letter))) prev s <> None <->
  letter_at prev = false /\ startswith w s = true /\
  letter_at (hd_error (skipn (length w) s)) = false.
Proof.
  unfold match_here. cbn [matchre].
  assert (forall p t,
    matchre (lit w) (matchre (NotAhead is_ascii_letter) (fun _ rest => Some rest)) p t
      <> None <->
    startswith w t = true /\ letter_at (hd_error (skipn (length w) t)) = false) as Hin.
  { intros p t. rewrite matchre_lit. destruct (startswith w t); [|split; [congruence|intros [? _]; discriminate]].
    cbn [matchre]. destruct (skipn (length w) t) as [|x rest]; simpl.
    - split; [auto|discriminate].
    - destruct (is_ascii_letter x); split; try congruence; try discriminate; auto.
      intros [_ ?]; discriminate. }
  destruct prev as [c|]; simpl letter_at.
  - destruct (is_ascii_letter c).
    + split; [congruence|intros [? _]; discriminate].
    + specialize (Hin (Some c) s).
      destruct (matchre (lit w) _ (Some c) s); split; intros H.
      * split; [reflexivity|]. apply Hin. discriminate.
      * discriminate.
      * congruence.
      * exfalso. destruct H as [_ H]. apply Hin in H. congruence.
  - specialize (Hin None s).
    destruct (matchre (lit w) _ None s); split; intros H.
    * split; [reflexivity|]. apply Hin. discriminate.
    * discriminate.
    * congruence.
    * exfalso. destruct H as [_ H]. apply Hin in H. congruence.
Qed.

Lemma search_lit (w text : str) :
  search (lit w) text <> None <-> occurs w text.
Proof.
  unfold search, occurs. rewrite search_from_some. split.
  - intros (pre & post & -> & H). apply match_here_lit, startswith_app in H.
    destruct H as [post' ->]. eauto.
  - intros (pre & post & ->). exists pre, (w ++ post). split; [reflexivity|].
    apply match_here_lit, startswith_app. eauto.
Qed.

Lemma search_bounded (w text : str) :
  search (Seq (NotBehind is_ascii_letter) (Seq (lit w) (NotAhead is_ascii_letter))) text
    <> None <->
  occurs_bounded w text.
Proof.
  unfold search, occurs_bounded. rewrite search_from_some. split.
  - intros (pre & post & -> & H). apply match_here_bounded in H.
    destruct H as (Hb & Hs & Ha). apply startswith_app in Hs.
    destruct Hs as [post' ->]. exists pre, post'.
    rewrite skipn_app, skipn_all, Nat.sub_diag in Ha. simpl in Ha. auto.
  - intros (pre & post & -> & Hb & Ha). exists pre, (w ++ post).
    split; [reflexivity|]. apply match_here_bounded.
    split; [exact Hb|]. split; [apply startswith_app; eauto|].
    rewrite skipn_app, skipn_all, Nat.sub_diag. simpl. exact Ha.
Qed.

(** What the scan of one vocabulary entry decides. *)
Lemma skill_found_iff (text_lower skill : str) :
  skill_found text_lower skill = true <->
  if (length skill <=? 3)%nat then occurs_bounded (py_lower skill) text_lower
  else occurs (py_lower skill) text_lower.
Proof.
  unfold skill_found, skill_pattern. cbv zeta.
  destruct (length skill <=? 3)%nat.
  - rewrite <- search_bounded. destruct (search _ text_lower); split; congruence.
  - rewrite <- search_lit. destruct (search _ text_lower); split; congruence.
Qed.

End Literal.

(** ** Sorting *)

Section Sorting.

Lemma str_leb_total (a b : str) : str_leb a b = false -> str_leb b a = true.
Proof.
  revert b. induction a as [|x a IH]; intros [|y b]; simpl; try discriminate; try reflexivity.
  destruct (Z.ltb_spec x y), (Z.eqb_spec x y), (Z.ltb_spec y x), (Z.eqb_spec y x);
    simpl; try lia; try discriminate; try reflexivity.
  apply IH.
Qed.

Lemma str_leb_trans (a b c : str) :
  str_leb a b = true -> str_leb b c = true -> str_leb a c = true.
Proof.
  revert b c. induction a as [|x a IH]; intros [|y b] [|z c]; simpl;
    try discriminate; try reflexivity.
  destruct (Z.ltb_spec x y), (Z.eqb_spec x y), (Z.ltb_spec y z), (Z.eqb_spec y z),
           (Z.ltb_spec x z), (Z.eqb_spec x z);
    simpl; try lia; try discriminate; try reflexivity.
  apply IH.
Qed.

Lemma insert_sorted_perm (x : str) (l : list str) :
  Permutation (insert_sorted x l) (x :: l).
Proof.
  induction l as [|y l IH]; simpl; [reflexivity|].
  destruct (str_leb x y); [reflexivity|].
  rewrite IH. apply perm_swap.
Qed.

Lemma sorted_perm (l : list str) : Permutation (sorted l) l.
Proof.
  induction l as [|x l IH]; simpl; [reflexivity|].
  rewrite insert_sorted_perm. constructor. exact IH.
Qed.

Lemma insert_sorted_ordered (x : str) (l : list str) :
  StronglySorted (fun a b => str_leb a b = true) l ->
  StronglySorted (fun a b => str_leb a b = true) (insert_sorted x l).
Proof.
  induction 1 as [|y l Hs IH Hy]; simpl.
  - repeat constructor.
  - destruct (str_leb x y) eqn:E.
    + constructor; [constructor; assumption|].
      constructor; [exact E|].
      eapply Forall_impl; [|exact Hy]. intros z Hz. eapply str_leb_trans; eassumption.
    + constructor; [exact IH|].
      eapply Permutation_Forall; [symmetry; apply insert_sorted_perm|].
      constructor; [apply str_leb_total, E|exact Hy].
Qed.

Lemma sorted_ordered (l : list str) :
  StronglySorted (fun a b => str_leb a b = true) (sorted l).
Proof.
  induction l as [|x l IH]; simpl; [constructor|].
  apply insert_sorted_ordered, IH.
Qed.

Lemma ordered_strict (l : list str) :
  StronglySorted (fun a b => str_leb a b = true) l -> NoDup l ->
  StronglySorted str_lt l.
Proof.
  induction 1 as [|x l Hs IH Hx]; intros Hn; [constructor|].
  inversion Hn as [|? ? Hnot Hn']; subst.
  constructor; [apply IH, Hn'|].
  rewrite Forall_forall in Hx |- *. intros y Hy.
  split; [apply Hx, Hy|]. intros ->. exact (Hnot Hy).
Qed.

End Sorting.

(** ** [extract_skills] *)

Section SkillsFacts.
Context {U : UnicodeDB}.

(** Facts about the vocabulary, by evaluation: lower-casing a display form
    gives the entry back, and the entries are lower-case. *)
Lemma display_form_lower_all :
  forallb (fun s => str_eqb (py_lower (display_form s)) s) SKILLS_DB = true.
Proof. vm_compute. reflexivity. Qed.

Lemma vocabulary_lower_all :
  forallb (fun s => str_eqb (py_lower s) s) SKILLS_DB = true.
Proof. vm_compute. reflexivity. Qed.

Lemma display_form_lower (skill : str) :
  In skill SKILLS_DB -> py_lower (display_form skill) = skill.
Proof.
  pose proof display_form_lower_all as H.
  rewrite forallb_forall in H. intros Hin. apply str_eqb_eq, H, Hin.
Qed.

Lemma vocabulary_lower (skill : str) :
  In skill SKILLS_DB -> py_lower skill = skill.
Proof.
  pose proof vocabulary_lower_all as H.
  rewrite forallb_forall in H. intros Hin. apply str_eqb_eq, H, Hin.
Qed.

Lemma found_skills_In (text_lower x : str) :
  In x (found_skills text_lower) <->
  exists skill, In skill SKILLS_DB /\ skill_found text_lower skill = true /\
                x = display_form skill.
Proof.
  unfold found_skills. rewrite in_flat_map. split.
  - intros (s & Hs & Hx). exists s. destruct (skill_found text_lower s); simpl in Hx.
    + destruct Hx as [<-|[]]. auto.
    + contradiction.
  - intros (s & Hs & Hf & ->). exists s. rewrite Hf. simpl. auto.
Qed.

Lemma unique_skills_incl (seen found : list str) (x : str) :
  In x (unique_skills seen found) -> In x found.
Proof.
  revert seen. induction found as [|y l IH]; intros seen; simpl; [tauto|].
  destruct (mem (py_lower y) seen).
  - intros H. right. eapply IH, H.
  - intros [<-|H]; [left; reflexivity|right; eapply IH, H].
Qed.

Lemma unique_skills_keeps (seen found : list str) (x : str) :
  In x found -> ~ In (py_lower x) seen ->
  (forall y, In y found -> py_lower y = py_lower x -> y = x) ->
  In x (unique_skills seen found).
Proof.
  revert seen. induction found as [|y l IH]; intros seen Hin Hseen Hinj; [contradiction|].
  simpl. destruct (mem (py_lower y) seen) eqn:Em.
  - apply mem_In in Em. destruct Hin as [->|Hin]; [contradiction|].
    apply IH; [exact Hin|exact Hseen|]. intros z Hz. apply Hinj. right. exact Hz.
  - destruct Hin as [->|Hin]; [left; reflexivity|].
    destruct (str_eqb y x) eqn:Eyx.
    + apply str_eqb_eq in Eyx. left. exact Eyx.
    + right. apply IH; [exact Hin| |].
      * intros [E|Hs]; [|exact (Hseen Hs)].
        assert (y = x) as Hyx by (apply Hinj; [left; reflexivity|exact E]).
        apply str_eqb_eq in Hyx. congruence.
      * intros z Hz. apply Hinj. right. exact Hz.
Qed.

Lemma unique_skills_nodup (seen found : list str) :
  NoDup (map py_lower (unique_skills seen found)) /\
  forall x, In x (unique_skills seen found) -> ~ In (py_lower x) seen.
Proof.
  revert seen. induction found as [|y l IH]; intros seen; simpl.
  - split; [constructor|intros x []].
  - destruct (mem (py_lower y) seen) eqn:Em; [apply IH|].
    destruct (IH (py_lower y :: seen)) as [Hn Hs].
    split.
    + simpl. constructor; [|exact Hn].
      rewrite in_map_iff. intros (z & Ez & Hz).
      apply (Hs z Hz). left. symmetry. exact Ez.
    + intros x [<-|Hx].
      * intros Hin. apply mem_In in Hin. congruence.
      * intros Hin. apply (Hs x Hx). right. exact Hin.
Qed.

Lemma extract_skills_In (text x : str) :
  In x (extract_skills text) <-> In x (unique_skills [] (found_skills (py_lower text))).
Proof.
  unfold extract_skills. cbv zeta. split; intros H.
  - eapply Permutation_in; [apply sorted_perm|exact H].
  - eapply Permutation_in; [symmetry; apply sorted_perm|exact H].
Qed.

(** An entry of the vocabulary is reported exactly when its scan succeeds. *)
Lemma detected_iff (text skill : str) :
  In skill SKILLS_DB ->
  detected text skill <-> skill_found (py_lower text) skill = true.
Proof.
  intros Hin. unfold detected. rewrite extract_skills_In. split.
  - intros H. apply unique_skills_incl, found_skills_In in H.
    destruct H as (s & Hs & Hf & E).
    assert (s = skill) as <-.
    { rewrite <- (display_form_lower s Hs), <- E. apply display_form_lower, Hin. }
    exact Hf.
  - intros Hf. apply unique_skills_keeps.
    + apply found_skills_In. eauto.
    + intros [].
    + intros y Hy E. apply found_skills_In in Hy. destruct Hy as (s & Hs & _ & ->).
      rewrite (display_form_lower s Hs), (display_form_lower skill Hin) in E.
      subst. reflexivity.
Qed.

(** C5: an entry of at most 3 characters is detected exactly when it occurs
    in the lower-cased text with no letter [A-Za-z] just before or just
    after it; a longer entry exactly when it occurs in the lower-cased text.
    The text [javascript] gives neither [c] nor [r]; the text
    [I use Go daily] gives [go]. *)
Theorem short_skills_word_bounded :
  (forall text skill, In skill SKILLS_DB -> (length skill <= 3)%nat ->
     (detected text skill <-> occurs_bounded skill (py_lower text))) /\
  (forall text skill, In skill SKILLS_DB -> (3 < length skill)%nat ->
     (detected text skill <-> occurs skill (py_lower text))) /\
  ~ detected (py "javascript") (py "c") /\
  ~ detected (py "javascript") (py "r") /\
  detected (py "I use Go daily") (py "go").
Proof.
  split; [|split].
  - intros text skill Hin Hlen. rewrite (detected_iff text skill Hin), skill_found_iff.
    apply Nat.leb_le in Hlen. rewrite Hlen, (vocabulary_lower skill Hin). reflexivity.
  - intros text skill Hin Hlen. rewrite (detected_iff text skill Hin), skill_found_iff.
    apply Nat.leb_gt in Hlen. rewrite Hlen, (vocabulary_lower skill Hin). reflexivity.
  - assert (forall skill, In skill [py "c"; py "r"] ->
                          skill_found (py_lower (py "javascript")) skill = false) as Hno.
    { intros skill [<-|[<-|[]]]; vm_compute; reflexivity. }
    split; [|split].
    + rewrite detected_iff by (vm_compute; tauto).
      rewrite Hno by (simpl; tauto). discriminate.
    + rewrite detected_iff by (vm_compute; tauto).
      rewrite Hno by (simpl; tauto). discriminate.
    + rewrite detected_iff by (vm_compute; tauto). vm_compute. reflexivity.
Qed.

(** C10: every skill reported is, lower-cased, an entry of the vocabulary;
    no two reported skills are equal up to case; and the list is strictly
    increasing in the lexicographic order of code points. *)
Theorem extract_skills_invariant (text : str) :
  (forall x, In x (extract_skills text) -> In (py_lower x) SKILLS_DB) /\
  NoDup (map py_lower (extract_skills text)) /\
  StronglySorted str_lt (extract_skills text).
Proof.
  assert (NoDup (map py_lower (extract_skills text))) as Hn.
  { unfold extract_skills. cbv zeta.
    eapply Permutation_NoDup.
    - apply Permutation_map. symmetry. apply sorted_perm.
    - apply unique_skills_nodup. }
  split; [|split].
  - intros x Hx. apply extract_skills_In, unique_skills_incl, found_skills_In in Hx.
    destruct Hx as (s & Hs & _ & ->). rewrite display_form_lower by exact Hs. exact Hs.
  - exact Hn.
  - apply ordered_strict; [apply sorted_ordered|].
    eapply NoDup_map_inv, Hn.
Qed.

(** Case variants of one skill are reported once. *)
Lemma extract_skills_dedup_example :
  extract_skills (py "Python, PYTHON, python") = [py "Python"].
Proof. vm_compute. reflexivity. Qed.

(** C4 fails on the code: the entry [java] has no dot and no slash, is not
    one of the acronyms and is stored in lower case, and yet its display
    form is upper-cased, because the test that guards the upper-case form
    compares [skill.upper()] with itself. *)
Theorem display_form_java :
  In (py "java") SKILLS_DB /\
  display_form (py "java") = py "JAVA" /\
  extract_skills (py "java") = [py "JAVA"] /\
  py_title (py "java") = py "Java".
Proof. vm_compute. repeat split. tauto. Qed.

(** Every entry of at most 4 characters outside the exceptions is upper-cased. *)
Lemma display_form_short (skill : str) :
  contains (py ".") skill = false -> contains (py "/") skill = false ->
  mem (py_upper skill) ACRONYMS = false -> (length skill <= 4)%nat ->
  display_form skill = py_upper skill.
Proof.
  intros H1 H2 H3 H4. unfold display_form. rewrite H1, H2, H3. simpl.
  apply Nat.leb_le in H4. rewrite H4. simpl.
  assert (str_eqb (py_upper skill) (py_upper skill) = true) as ->
    by (apply str_eqb_eq; reflexivity).
  reflexivity.
Qed.

End SkillsFacts.

Lemma short_skills_word_bounded_witness :
  occurs_bounded (py "go") (@py_lower plain_db (py "I use Go daily")).
Proof.
  refine (proj1 (proj1 (@short_skills_word_bounded plain_db)
                       (py "I use Go daily") (py "go") _ _) _).
  - vm_compute. tauto.
  - vm_compute. lia.
  - exact (proj2 (proj2 (proj2 (proj2 (@short_skills_word_bounded plain_db))))).
Defined.

(** ** [calculate_skill_match] *)

Section SkillMatch.
Context {U : UnicodeDB}.

Lemma insert_sorted_length (x : str) (l : list str) :
  length (insert_sorted x l) = S (length l).
Proof. apply (Permutation_length (insert_sorted_perm x l)). Qed.

Lemma unique_skills_length (seen found : list str) :
  (length (unique_skills seen found) <= length found)%nat.
Proof.
  revert seen. induction found as [|y l IH]; intros seen; simpl; [lia|].
  destruct (mem (py_lower y) seen).
  - specialize (IH seen). lia.
  - specialize (IH (py_lower y :: seen)). simpl. lia.
Qed.

Lemma found_skills_length (text_lower : str) :
  (length (found_skills text_lower) <= length SKILLS_DB)%nat.
Proof.
  unfold found_skills. induction SKILLS_DB as [|s l IH]; simpl; [lia|].
  rewrite length_app. destruct (skill_found text_lower s); simpl; lia.
Qed.

(** At most as many skills are reported as the vocabulary has entries. *)
Lemma extract_skills_length (text : str) :
  (length (extract_skills text) <= length SKILLS_DB)%nat.
Proof.
  unfold extract_skills. cbv zeta.
  rewrite (Permutation_length (sorted_perm _)).
  etransitivity; [apply unique_skills_length|apply found_skills_length].
Qed.

(** The percentage is in range for every pair of counts that can occur;
    the finitely many cases are evaluated on the floats themselves. *)
Lemma percentages_in_range_vocabulary :
  percentages_in_range (length SKILLS_DB) = true.
Proof. vm_compute. reflexivity. Qed.

Lemma percentages_in_range_lookup (n matched total : nat) :
  percentages_in_range n = true ->
  (1 <= total <= n)%nat -> (matched <= total)%nat ->
  percentage_in_range (match_percentage matched total) = true.
Proof.
  unfold percentages_in_range. intros H Ht Hm.
  rewrite forallb_forall in H. specialize (H total).
  rewrite forallb_forall in H. apply H; apply in_seq; lia.
Qed.

Lemma match_percentage_range (matched total : nat) :
  (1 <= total <= length SKILLS_DB)%nat -> (matched <= total)%nat ->
  percentage_in_range (match_percentage matched total) = true.
Proof.
  apply percentages_in_range_lookup, percentages_in_range_vocabulary.
Qed.

Lemma mem_filter (P : str -> bool) (k : str) (l : list str) :
  mem k (filter P l) = mem k l && P k.
Proof.
  apply eq_true_iff_eq. rewrite andb_true_iff, !mem_In, filter_In. tauto.
Qed.

Lemma mem_map_lower (s : str) (l : list str) :
  In s l -> mem (py_lower s) (map py_lower l) = true.
Proof. intros H. apply mem_In, in_map, H. Qed.

(** The matched and the missing skills split the skills of the job
    description. *)
Lemma matched_missing_split (resume_lower job_skills : list str) :
  let job_lower := map py_lower job_skills in
  let matched_lower := filter (fun k => mem k job_lower) resume_lower in
  let missing_lower := filter (fun k => negb (mem k resume_lower)) job_lower in
  (length (filter (fun s => mem (py_lower s) matched_lower) job_skills) +
   length (filter (fun s => mem (py_lower s) missing_lower) job_skills))%nat
  = length job_skills.
Proof.
  intros job_lower matched_lower missing_lower.
  rewrite <- (filter_length (fun s => mem (py_lower s) resume_lower) job_skills).
  f_equal; f_equal; apply filter_ext_in; intros s Hs.
  - unfold matched_lower. rewrite mem_filter.
    unfold job_lower. rewrite (mem_map_lower s job_skills Hs). apply andb_true_r.
  - unfold missing_lower. rewrite mem_filter.
    unfold job_lower. rewrite (mem_map_lower s job_skills Hs). reflexivity.
Qed.

(** C1: in the record built from [calculate_skill_match], the total is the
    matched count plus the number of missing skills, the percentage is
    between 0 and 100, and with an empty job description, an empty list of
    resume skills or no skill detected in the job description the percentage
    is 0.0 and both lists are empty.  Otherwise the total is the number of
    skills detected in the job description. *)
Theorem skill_match_invariant (resume_skills : list str) (job_description : str) :
  let sm := skill_match_dict (calculate_skill_match resume_skills job_description) in
  total_jd_skills sm = (matched_count sm + length (missing_skills sm))%nat /\
  PrimFloat.leb 0%float (percentage sm) = true /\
  PrimFloat.leb (percentage sm) 100%float = true /\
  (job_description = [] \/ resume_skills = [] \/ extract_skills job_description = [] ->
   percentage sm = 0%float /\ matched_skills sm = [] /\ missing_skills sm = []) /\
  (job_description <> [] -> resume_skills <> [] ->
   total_jd_skills sm = length (extract_skills job_description)).
Proof.
  unfold calculate_skill_match.
  destruct job_description as [|c jd]; [|destruct resume_skills as [|r rs]].
  - simpl. repeat split; congruence.
  - simpl. repeat split; congruence.
  - cbn [is_empty length Nat.eqb orb].
    destruct (extract_skills (c :: jd)) as [|j js] eqn:Ej.
    + simpl. repeat split; congruence.
    + cbn [length Nat.eqb]. cbv zeta.
      set (job_skills := j :: js) in *.
      set (rl := map py_lower (r :: rs)).
      pose proof (matched_missing_split rl job_skills) as Hsplit. cbv zeta in Hsplit.
      set (matched := filter _ job_skills) in *.
      set (missing := filter _ job_skills) in *.
      cbn [skill_match_dict total_jd_skills matched_count missing_skills
           matched_skills percentage].
      assert (percentage_in_range
                (match_percentage (length matched) (length job_skills)) = true) as Hp.
      { apply match_percentage_range.
        - split; [subst job_skills; simpl; lia|].
          rewrite <- Ej. apply extract_skills_length.
        - lia. }
      apply andb_true_iff in Hp. destruct Hp as [Hp0 Hp100].
      split; [reflexivity|]. split; [exact Hp0|]. split; [exact Hp100|].
      split.
      * intros [H|[H|H]]; discriminate.
      * intros _ _. exact Hsplit.
Qed.

End SkillMatch.

Lemma calculate_skill_match_example {U : UnicodeDB} :
  calculate_skill_match [py "Python"; py "JAVA"] (py "need python, java and docker, also go")
  = (50%float, [py "JAVA"; py "Python"], [py "Docker"; py "GO"]).
Proof. vm_compute. reflexivity. Qed.

(** ** [extract_name]: the email fallback *)

Section NameFacts.
Context {U : UnicodeDB}.




End NameFacts.


(** The pieces keep the spaces that replace digits and underscores: the
    local part [j_smith-lee99] gives [J smith Lee]. *)
Lemma email_fallback_underscore {U : UnicodeDB} :
  extract_name None (py "Contact: j_smith-lee99@mail.com, +1 555 0100")
  = py "J smith Lee".
Proof. vm_compute. reflexivity. Qed.



Lemma extract_name_label_example {U : UnicodeDB} :
  extract_name None (join_nl [py "Name: Jane Q. Public"; py "Email: a@b.com"])
  = py "Jane Q. Public".
Proof. vm_compute. reflexivity. Qed.

(** ** [_extract_section]: the stop set *)

Section SectionFacts.
Context {U : UnicodeDB}.

Lemma section_loop_scan (kws : list str) (pre rest : list str) (st st' : section_state) :
  section_scan kws st pre = Some st' ->
  section_loop kws st (pre ++ rest) = section_loop kws st' rest.
Proof.
  revert st. induction pre as [|l pre IH]; intros st H; simpl in H |- *.
  - injection H as ->. reflexivity.
  - destruct (section_step kws st l) as [st1|st1]; [apply IH, H|discriminate].
Qed.




End SectionFacts.


Lemma extract_experience_example {U : UnicodeDB} :
  extract_experience (join_nl [py "Experience"; py "Did X"; py "Education"; py "Did Y"])
  = py "Did X".
Proof. vm_compute. reflexivity. Qed.

(** ** [parse_resume]: unsupported extensions *)

Section EntryFacts.
Context {U : UnicodeDB}.

(** C9: for an extension that is, lower-cased, none of [.pdf], [.docx]
    and [.doc], [parse_resume] raises the unsupported-format error and the
    record of reader calls is unchanged, whatever the libraries and the path
    are: no reader has been called. *)
Theorem unsupported_extension_fails (L : Libraries)
    (file_path file_extension job_description : str) (calls : list event) :
  py_lower file_extension <> py ".pdf" ->
  py_lower file_extension <> py ".docx" ->
  py_lower file_extension <> py ".doc" ->
  parse_resume L file_path file_extension job_description calls =
  (inl (ValueError (unsupported_message (py_lower file_extension))), calls).
Proof.
  intros Hpdf Hdocx Hdoc. unfold parse_resume. cbv zeta.
  destruct (str_eqb (py_lower file_extension) (py ".pdf")) eqn:E1.
  { apply str_eqb_eq in E1. contradiction. }
  destruct (mem (py_lower file_extension) [py ".docx"; py ".doc"]) eqn:E2.
  { apply mem_In in E2. destruct E2 as [E|[E|[]]]; symmetry in E; contradiction. }
  reflexivity.
Qed.

(** The skill match of a parsed resume is the record of C1. *)
Lemma parse_resume_skill_match (L : Libraries)
    (file_path file_extension job_description : str) (calls calls' : list event)
    (parsed : ParsedResume) :
  parse_resume L file_path file_extension job_description calls = (inr parsed, calls') ->
  skill_match parsed =
  skill_match_dict (calculate_skill_match (skills parsed) job_description).
Proof.
  unfold parse_resume, bind. cbv zeta.
  destruct (if str_eqb _ _ then _ else _) as [[e|raw] tr]; [discriminate|].
  destruct (is_empty (strip raw)); [discriminate|].
  unfold ret. intros H. injection H as <- _. reflexivity.
Qed.

End EntryFacts.

Lemma unsupported_extension_fails_witness :
  @parse_resume plain_db unreadable (py "/tmp/resume.txt") (py ".txt") [] [] =
  (inl (ValueError (py "Unsupported file format '.txt'. Please upload a PDF or DOCX file.")),
   []).
Proof.
  apply (@unsupported_extension_fails plain_db unreadable (py "/tmp/resume.txt")
           (py ".txt") [] []); vm_compute; discriminate.
Defined.

(** A supported extension reaches the reader: the call is recorded. *)
Lemma supported_extension_reads {U : UnicodeDB} :
  snd (parse_resume unreadable (py "/tmp/resume.pdf") (py ".PDF") [] [])
  = [OpenPdf (py "/tmp/resume.pdf")].
Proof. vm_compute. reflexivity. Qed.

(* ================================================================== *)
(** * Further properties *)
(* ================================================================== *)

(** ** The shape of a normalised text *)

Section CleanTextShape.

Lemma tight_spaced (ls : list str) : tight ls -> no_adjacent_blank ls.
Proof.
  induction 1 as [l Hl|l ls Hl Ht IH|l ls Hl Ht IH]; simpl.
  - exact I.
  - destruct ls as [|l' r]; [exact I|]. split; [intros E; contradiction|exact IH].
  - split; [intros E; contradiction|].
    destruct (tight_head ls Ht) as (l' & r & -> & Hl').
    split; [intros _; exact Hl'|exact IH].
Qed.

(** The lines of a normalised text carry no leading or trailing whitespace,
    no two blank lines follow each other, and the text as a whole is
    stripped (so it neither starts nor ends with a blank line). *)
Theorem clean_text_lines (t : str) :
  Forall stripped (split_nl (clean_text t)) /\
  no_adjacent_blank (split_nl (clean_text t)) /\
  strip (clean_text t) = clean_text t.
Proof.
  destruct (clean_text_shape t) as [E|(ls & E & Ht & Hs & Hn & Hc)]; rewrite E.
  - repeat split. repeat constructor.
  - rewrite split_join_nl by (try apply tight_not_nil; assumption).
    split; [exact Hs|]. split; [apply tight_spaced, Ht|].
    apply strip_join_tight; assumption.
Qed.

(** A normalised text has no carriage return and no character outside tab,
    line feed, U+0020..U+007E and U+00A0..U+FFFF. *)
Theorem clean_text_chars (t : str) (c : Z) :
  In c (clean_text t) ->
  c = 9 \/ c = 10 \/ 32 <= c <= 126 \/ 160 <= c <= 65535.
Proof.
  intros Hin.
  assert (Forall clean_char (clean_text t)) as H.
  { destruct (clean_text_shape t) as [E|(ls & E & Ht & Hs & Hn & Hc)]; rewrite E.
    - constructor.
    - apply join_nl_Forall; [split; [reflexivity|discriminate]|exact Hc]. }
  rewrite Forall_forall in H. destruct (H c Hin) as [Hk Hcr].
  apply kept_char_iff in Hk. unfold in_kept_set in Hk. unfold CR in Hcr. lia.
Qed.

Lemma clean_text_chars_witness :
  In 233 (clean_text [13; 233; 7]) /\ (233 = 9 \/ 233 = 10 \/ 32 <= 233 <= 126 \/ 160 <= 233 <= 65535).
Proof.
  assert (In 233 (clean_text [13; 233; 7])) as H by (vm_compute; tauto).
  split; [exact H|]. exact (clean_text_chars [13; 233; 7] 233 H).
Defined.

Lemma lstrip_blank (s : str) : Forall (fun c => is_space c = true) s -> lstrip s = [].
Proof. induction 1 as [|c s Hc Hs IH]; simpl; [reflexivity|]. rewrite Hc. exact IH. Qed.

Lemma replace_cr_Forall (P : Z -> Prop) (s : str) :
  P LF -> Forall P s -> Forall P (replace_cr s).
Proof.
  intros HP. induction 1 as [|c s Hc Hs IH]; simpl; constructor; [|exact IH].
  destruct (c =? CR); assumption.
Qed.

Lemma drop_repeated_blank_all_blank (b : bool) (ls : list str) :
  Forall (fun l => l = []) ls ->
  drop_repeated_blank b ls = [] \/ drop_repeated_blank b ls = [[]].
Proof.
  intros H. revert b. induction H as [|l ls -> Hs IH]; intros b; simpl.
  - left. reflexivity.
  - destruct b; [apply IH|]. right.
    assert (drop_repeated_blank true ls = []) as ->; [|reflexivity].
    clear IH. induction Hs as [|l ls -> Hs IH]; simpl; [reflexivity|exact IH].
Qed.

(** A text made only of whitespace and of characters the first substitution
    replaces is normalised to the empty text. *)
Theorem clean_text_blank (t : str) :
  Forall (fun c => is_space c = true \/ kept_char c = false) t ->
  clean_text t = [].
Proof.
  intros H. unfold clean_text. cbv zeta.
  set (P := fun c : Z => is_space c = true).
  assert (Forall P (sub_nonprintable t)) as H1.
  { unfold sub_nonprintable. apply Forall_map.
    eapply Forall_impl; [|exact H]. intros c [Hc|Hc]; unfold P.
    - destruct (kept_char c); [exact Hc|reflexivity].
    - rewrite Hc. reflexivity. }
  assert (Forall (Forall P)
            (split_nl (sub_blank_runs 0 (replace_cr (replace_crlf (sub_nonprintable t))))))
    as H2.
  { apply split_nl_Forall, Forall_sub_blank_runs; [reflexivity|].
    apply replace_cr_Forall; [reflexivity|].
    apply replace_crlf_Forall; [reflexivity|exact H1]. }
  set (lines := split_nl _) in *.
  assert (Forall (fun l => l = []) (map strip lines)) as H3.
  { apply Forall_map. eapply Forall_impl; [|exact H2].
    intros l Hl. unfold strip. rewrite lstrip_blank by exact Hl. reflexivity. }
  destruct (drop_repeated_blank_all_blank false _ H3) as [-> | ->]; reflexivity.
Qed.

Lemma clean_text_blank_witness : clean_text [0; 32; 13; 10; 11; 127; 9] = [].
Proof.
  apply clean_text_blank.
  repeat constructor; vm_compute; tauto.
Defined.

End CleanTextShape.

(** ** The matcher is sound for the meaning of patterns *)

Section MatcherSound.
Context {U : UnicodeDB}.

Lemma last_char_app (prev : option Z) (a b : str) :
  last_char (last_char prev a) b = last_char prev (a ++ b).
Proof.
  unfold last_char. revert prev. induction a as [|x a IH]; intros prev; [reflexivity|].
  cbn [app map]. rewrite !last_cons_default. apply IH.
Qed.

Lemma last_char_cons (prev : option Z) (c : Z) (m : str) :
  last_char prev (c :: m) = last_char (Some c) m.
Proof. unfold last_char. cbn [map]. apply last_cons_default. Qed.

Lemma first_char_app (m rest : str) :
  first_char m (hd_error rest) = hd_error (m ++ rest).
Proof. destruct m; reflexivity. Qed.

Lemma rep_greedy_sound {A : Type} (p : Z -> bool) (k : cont A)
    (lo : nat) (hi : option nat) (prev : option Z) (s : str) (a : A) :
  rep_greedy p k lo hi prev s = Some a ->
  exists m rest, s = m ++ rest /\ Forall (fun c => p c = true) m /\
                 (lo <= length m)%nat /\ within hi (length m) /\
                 k (last_char prev m) rest = Some a.
Proof.
  revert lo hi prev.
  assert (forall lo hi prev s0,
             match lo with O => k prev s0 | S _ => None end = Some a ->
             exists m rest, s0 = m ++ rest /\ Forall (fun c => p c = true) m /\
                            (lo <= length m)%nat /\ within hi (length m) /\
                            k (last_char prev m) rest = Some a) as Hstop.
  { intros lo hi prev s0 H. destruct lo; [|discriminate].
    exists [], s0. repeat split; try constructor.
    - destruct hi; simpl; lia.
    - exact H. }
  induction s as [|c s IH]; intros lo hi prev H; cbn [rep_greedy] in H.
  - apply Hstop, H.
  - destruct (p c && may_take hi) eqn:E; [|apply Hstop, H].
    apply andb_true_iff in E. destruct E as [Hp Hm].
    destruct (rep_greedy p k (Nat.pred lo) (one_less hi) (Some c) s) as [a'|] eqn:Er;
      [|apply Hstop, H].
    injection H as ->.
    destruct (IH _ _ _ Er) as (m & rest & -> & Hall & Hlo & Hhi & Hk).
    exists (c :: m), rest. rewrite last_char_cons.
    repeat split; try assumption.
    + constructor; assumption.
    + simpl. lia.
    + destruct hi as [h|]; simpl in *; [|exact I].
      apply Nat.ltb_lt in Hm. lia.
Qed.

(** Whatever the matcher accepts is matched in the declared sense, and the
    continuation has accepted the rest. *)
Lemma matchre_sound {A : Type} (r : regex) (k : cont A) (prev : option Z)
    (s : str) (a : A) :
  matchre r k prev s = Some a ->
  exists m rest, s = m ++ rest /\ means r prev m (hd_error rest) /\
                 k (last_char prev m) rest = Some a.
Proof.
  revert k prev s a.
  induction r as [|p|p lo hi|r1 IH1 r2 IH2|r1 IH1| |p|p]; intros k prev s a H;
    cbn [matchre] in H.
  - exists [], s. repeat split. exact H.
  - destruct s as [|c s]; [discriminate|].
    destruct (p c) eqn:Hp; [|discriminate].
    exists [c], s. repeat split; [|exact H]. exists c. auto.
  - destruct (rep_greedy_sound _ _ _ _ _ _ _ H) as (m & rest & -> & Hall & Hlo & Hhi & Hk).
    exists m, rest. repeat split; assumption.
  - destruct (IH1 _ _ _ _ H) as (m1 & rest1 & -> & H1 & Hk1).
    destruct (IH2 _ _ _ _ Hk1) as (m2 & rest & -> & H2 & Hk2).
    exists (m1 ++ m2), rest. rewrite app_assoc. split; [reflexivity|].
    split.
    + exists m1, m2. split; [reflexivity|]. rewrite first_char_app. auto.
    + rewrite <- last_char_app. exact Hk2.
  - destruct (matchre r1 k prev s) as [x|] eqn:E.
    + injection H as ->. destruct (IH1 _ _ _ _ E) as (m & rest & -> & Hm & Hk).
      exists m, rest. repeat split; [right; exact Hm|exact Hk].
    + exists [], s. repeat split; [left; reflexivity|exact H].
  - destruct (xorb (word_at prev) (word_at (hd_error s))) eqn:E; [|discriminate].
    exists [], s. repeat split; assumption.
  - exists [], s. destruct prev as [c|].
    + destruct (p c) eqn:E; [discriminate|]. repeat split; assumption.
    + repeat split; assumption.
  - exists [], s. destruct s as [|c s].
    + repeat split; assumption.
    + simpl. destruct (p c) eqn:E; [discriminate|]. repeat split; assumption.
Qed.

Lemma match_here_sound (r : regex) (prev : option Z) (s m : str) :
  match_here r prev s = Some m ->
  exists rest, s = m ++ rest /\ means r prev m (hd_error rest).
Proof.
  unfold match_here.
  destruct (matchre r (fun _ rest => Some rest) prev s) as [rest|] eqn:E; [|discriminate].
  intros H. injection H as <-.
  destruct (matchre_sound _ _ _ _ _ E) as (m & rest' & -> & Hm & Hk).
  injection Hk as ->. exists rest. split; [|].
  - rewrite length_app, Nat.add_sub, firstn_app, Nat.sub_diag, firstn_all. simpl.
    rewrite app_nil_r. reflexivity.
  - rewrite length_app, Nat.add_sub, firstn_app, Nat.sub_diag, firstn_all. simpl.
    rewrite app_nil_r. exact Hm.
Qed.

Lemma search_from_sound (r : regex) (prev : option Z) (s m : str) :
  search_from r prev s = Some m ->
  exists pre post, s = pre ++ m ++ post /\
                   means r (last_char prev pre) m (hd_error post).
Proof.
  revert prev. induction s as [|c s IH]; intros prev H; cbn [search_from] in H.
  - destruct (match_here r prev []) as [m'|] eqn:E; [|discriminate].
    injection H as ->. destruct (match_here_sound _ _ _ _ E) as (rest & Hs & Hm).
    exists [], rest. auto.
  - destruct (match_here r prev (c :: s)) as [m'|] eqn:E.
    + injection H as ->. destruct (match_here_sound _ _ _ _ E) as (rest & Hs & Hm).
      exists [], rest. auto.
    + destruct (IH _ H) as (pre & post & -> & Hm).
      exists (c :: pre), post. rewrite last_char_cons. auto.
Qed.

(** A match found by [search] is a piece of the text and is matched by the
    pattern there. *)
Lemma search_sound (r : regex) (text m : str) :
  search r text = Some m ->
  exists pre post, text = pre ++ m ++ post /\
                   means r (last_char None pre) m (hd_error post).
Proof. apply search_from_sound. Qed.

End MatcherSound.

(** ** [extract_email] *)

Section Email.
Context {U : UnicodeDB}.

Lemma email_match_form (text m : str) :
  search email_pattern text = Some m ->
  exists local domain tld,
    m = local ++ py "@" ++ domain ++ py "." ++ tld /\
    occurs m text /\
    local <> [] /\ Forall (fun c => email_local_char c = true) local /\
    domain <> [] /\ Forall (fun c => email_domain_char c = true) domain /\
    (2 <= length tld <= 7)%nat /\ Forall (fun c => is_ascii_letter c = true) tld.
Proof.
  intros E.
  destruct (search_sound _ _ _ E) as (pre & post & Ht & Hm).
  unfold email_pattern in Hm. cbn [Re.seq means] in Hm.
  destruct Hm as (m0 & r0 & -> & [-> _] & Hm).
  destruct Hm as (local & r1 & -> & (Hl & Hll & _) & Hm).
  destruct Hm as (at_ & r2 & -> & (c1 & -> & Hc1) & Hm).
  destruct Hm as (domain & r3 & -> & (Hd & Hdl & _) & Hm).
  destruct Hm as (dot & r4 & -> & (c2 & -> & Hc2) & Hm).
  destruct Hm as (tld & r5 & -> & (Ht1 & Ht2 & Ht3) & Hm).
  destruct Hm as (m6 & r6 & -> & [-> _] & ->).
  unfold chr in Hc1, Hc2. simpl in Hc1, Hc2.
  rewrite orb_false_r in Hc1, Hc2. apply Z.eqb_eq in Hc1, Hc2. subst c1 c2.
  exists local, domain, tld. simpl in Ht3. rewrite !app_nil_r. simpl app.
  repeat split; try assumption.
  - exists pre, post. rewrite Ht. simpl. rewrite !app_nil_r. reflexivity.
  - intros ->. simpl in Hll. lia.
  - intros ->. simpl in Hdl. lia.
Qed.

(** The email returned is the sentinel, or a piece of the text of the form
    [local@domain.tld]: a non-empty local part over [A-Za-z0-9._%+-], a
    non-empty domain over [A-Za-z0-9.-], and 2 to 7 letters after the last
    dot. *)
Theorem extract_email_shape (text : str) :
  extract_email text = NOT_FOUND \/
  exists local domain tld,
    extract_email text = local ++ py "@" ++ domain ++ py "." ++ tld /\
    occurs (extract_email text) text /\
    local <> [] /\ Forall (fun c => email_local_char c = true) local /\
    domain <> [] /\ Forall (fun c => email_domain_char c = true) domain /\
    (2 <= length tld <= 7)%nat /\ Forall (fun c => is_ascii_letter c = true) tld.
Proof.
  unfold extract_email. destruct (search email_pattern text) as [m|] eqn:E;
    [right|left; reflexivity].
  exact (email_match_form text m E).
Qed.

Lemma In_occurs (c : Z) (m text : str) : occurs m text -> In c m -> In c text.
Proof.
  intros (pre & post & ->) H. apply in_or_app. right. apply in_or_app. left. exact H.
Qed.

(** Without an [@] in the text there is no email. *)
Theorem extract_email_needs_at (text : str) :
  ~ In 64 text -> extract_email text = NOT_FOUND.
Proof.
  intros H. unfold extract_email.
  destruct (search email_pattern text) as [m|] eqn:E; [|reflexivity].
  destruct (email_match_form text m E) as (local & domain & tld & -> & Ho & _).
  exfalso. apply H. apply (In_occurs 64 _ _ Ho).
  apply in_or_app. right. left. reflexivity.
Qed.

End Email.

Lemma extract_email_needs_at_witness :
  @extract_email plain_db (py "john.doe at mail.com") = NOT_FOUND.
Proof.
  apply (@extract_email_needs_at plain_db). vm_compute. intuition discriminate.
Defined.

(** ** [extract_phone]: the shape of the result *)

Section PhoneShape.
Context {U : UnicodeDB}.

Lemma sub_ws_runs_spaces (s : str) :
  Forall (fun c => is_space c = true -> c = SP) (sub_ws_runs s).
Proof.
  induction s as [|c s IH]; simpl; [constructor|].
  destruct (is_space c) eqn:E.
  - destruct s as [|d s']; [repeat constructor|].
    destruct (is_space d); [exact IH|constructor; [reflexivity|exact IH]].
  - constructor; [|exact IH]. intros H. congruence.
Qed.

(** The phone returned is the sentinel, or the cleaned form of a piece of
    the text: it has at least 10 digits, no whitespace at either end, and no
    whitespace character other than the space. *)
Theorem extract_phone_shape (text : str) :
  extract_phone text = NOT_FOUND \/
  ((10 <= length (digits_of (extract_phone text)))%nat /\
   strip (extract_phone text) = extract_phone text /\
   Forall (fun c => is_space c = true -> c = SP) (extract_phone text) /\
   exists m, occurs m text /\ extract_phone text = phone_of_match m).
Proof.
  destruct (phone_loop_outcome phone_patterns text)
    as [(i & q & m & _ & Hs & Hd & He & _)|[He _]]; [right|left; exact He].
  unfold extract_phone. rewrite He.
  split; [exact Hd|]. split; [apply strip_fixed, strip_stripped|].
  split; [apply Forall_strip, sub_ws_runs_spaces|].
  exists m. split; [|reflexivity].
  destruct (search_sound _ _ _ Hs) as (pre & post & -> & _). exists pre, post. reflexivity.
Qed.

End PhoneShape.

(** ** [_extract_section]: entry, bounds and blank lines *)

Section SectionMore.
Context {U : UnicodeDB}.

Lemma section_loop_idle (kws lines : list str) :
  (forall line, In line lines ->
     is_header_of kws (py_lower (strip line)) && (length (strip line) <? 80)%nat = false) ->
  section_loop kws section_init lines = section_init.
Proof.
  induction lines as [|l ls IH]; intros H; [reflexivity|].
  cbn [section_loop]. unfold section_step. cbv zeta.
  cbn [section_init in_section negb].
  rewrite (H l (or_introl eq_refl)).
  apply IH. intros line Hin. apply H. right. exact Hin.
Qed.

(** When no line shorter than 80 characters contains a keyword of the
    section, the section is never entered and the result is the sentinel. *)
Theorem section_not_entered (text : str) (kws : list str) :
  (forall line, In line (split_nl text) ->
     is_header_of kws (py_lower (strip line)) && (length (strip line) <? 80)%nat = false) ->
  _extract_section text kws = NOT_FOUND.
Proof.
  intros H. unfold _extract_section. rewrite section_loop_idle by exact H. reflexivity.
Qed.

Lemma section_step_bounds (Q : str -> Prop) (kws : list str) (st : section_state)
    (line : str) :
  (length (section_content st) < 40)%nat -> Forall Q (section_content st) ->
  (strip line <> [] -> Q (strip line)) ->
  match section_step kws st line with
  | Next st' => (length (section_content st') < 40)%nat /\ Forall Q (section_content st')
  | Break st' => (length (section_content st') <= 40)%nat /\ Forall Q (section_content st')
  end.
Proof.
  intros Hlen HQ Hline. unfold section_step. cbv zeta.
  destruct (negb (in_section st)).
  - destruct (is_header_of kws (py_lower (strip line)) && (length (strip line) <? 80)%nat);
      simpl; auto.
  - destruct (is_stop_line kws (strip line)); [split; [lia|exact HQ]|].
    destruct (strip line) as [|c s] eqn:Es;
      cbn [is_empty andb empty_line_count section_content].
    + destruct (3 <=? S (empty_line_count st))%nat; cbn [andb section_content];
        [split; [lia|exact HQ]|].
      destruct (40 <=? length (section_content st))%nat eqn:E; cbn [section_content];
        split; auto; lia.
    + assert (Forall Q (section_content st ++ [c :: s])) as HQ'.
      { apply Forall_app. split; [exact HQ|]. constructor; [|constructor].
        apply Hline. discriminate. }
      cbn [section_content].
      match goal with
      | |- context [(40 <=? ?n)%nat] => destruct (40 <=? n)%nat eqn:E
      end; cbn [section_content]; split; try exact HQ'.
      * rewrite length_app. simpl. lia.
      * apply Nat.leb_gt in E. exact E.
Qed.

Lemma section_loop_bounds (Q : str -> Prop) (kws : list str) (lines : list str)
    (st : section_state) :
  (length (section_content st) < 40)%nat -> Forall Q (section_content st) ->
  (forall line, In line lines -> strip line <> [] -> Q (strip line)) ->
  (length (section_content (section_loop kws st lines)) <= 40)%nat /\
  Forall Q (section_content (section_loop kws st lines)).
Proof.
  revert st. induction lines as [|l ls IH]; intros st Hlen HQ Hlines; cbn [section_loop].
  - split; [lia|exact HQ].
  - pose proof (section_step_bounds Q kws st l Hlen HQ (Hlines l (or_introl eq_refl))) as Hs.
    destruct (section_step kws st l) as [st'|st'].
    + destruct Hs as [H1 H2]. apply IH; try assumption.
      intros line Hin. apply Hlines. right. exact Hin.
    + exact Hs.
Qed.

(** The result of a section extraction is the sentinel, or at most 40
    lines joined by line feeds, each of them a non-empty stripped line of the
    text; it is never the empty string. *)
Theorem extract_section_result (text : str) (kws : list str) :
  _extract_section text kws = NOT_FOUND \/
  exists ls,
    _extract_section text kws = join_nl ls /\ ls <> [] /\ (length ls <= 40)%nat /\
    Forall (fun l => l <> [] /\ exists line, In line (split_nl text) /\ l = strip line) ls.
Proof.
  unfold _extract_section, section_result.
  set (Q := fun l : str => l <> [] /\ exists line, In line (split_nl text) /\ l = strip line).
  destruct (section_loop_bounds Q kws (split_nl text) section_init) as [Hlen HQ].
  - simpl. lia.
  - constructor.
  - intros line Hin Hne. split; [exact Hne|]. exists line. auto.
  - destruct (section_content (section_loop kws section_init (split_nl text)))
      as [|l ls] eqn:E; [left; reflexivity|right].
    exists (l :: ls). repeat split; try assumption. discriminate.
Qed.

Lemma section_headers_not_blank :
  forallb (fun h => negb (contains h (py_lower []))) all_section_headers = true.
Proof. vm_compute. reflexivity. Qed.

Lemma existsb_filter_none {A : Type} (p f : A -> bool) (l : list A) :
  forallb (fun x => negb (p x)) l = true -> existsb p (filter f l) = false.
Proof.
  induction l as [|x l IH]; simpl; intros H; [reflexivity|].
  apply andb_true_iff in H. destruct H as [Hx Hl].
  apply negb_true_iff in Hx.
  destruct (f x); simpl; [rewrite Hx; simpl|]; auto.
Qed.

Lemma stop_keywords_not_blank (kws : list str) :
  existsb (fun kw => contains kw (py_lower [])) (stop_keywords kws) = false.
Proof.
  exact (existsb_filter_none (fun kw => contains kw (py_lower []))
           (fun h => negb (mem h (map py_lower kws)))
           all_section_headers section_headers_not_blank).
Qed.

(** A blank line inside the section: nothing is collected, and the loop
    ends when it is the third in a row. *)
Lemma section_step_blank (kws : list str) (st : section_state) (line : str) :
  in_section st = true -> strip line = [] ->
  exists st', section_content st' = section_content st /\
              in_section st' = true /\
              empty_line_count st' = S (empty_line_count st) /\
              (section_step kws st line = Break st' \/
               (section_step kws st line = Next st' /\ (empty_line_count st' < 3)%nat)).
Proof.
  intros Hin Hb. unfold section_step. cbv zeta. rewrite Hin, Hb. cbn [negb].
  unfold is_stop_line. rewrite stop_keywords_not_blank.
  cbn [andb is_empty empty_line_count section_content].
  exists {| in_section := true;
            empty_line_count := S (empty_line_count st);
            section_content := section_content st |}.
  cbn [empty_line_count section_content in_section].
  repeat split.
  destruct (3 <=? S (empty_line_count st))%nat eqn:E.
  - left. reflexivity.
  - destruct (40 <=? length (section_content st))%nat; [left; reflexivity|].
    right. split; [reflexivity|]. apply Nat.leb_gt in E. exact E.
Qed.

(** Three blank lines in a row inside the section end the collection: the
    result is what was collected before them. *)
Theorem three_blank_lines_end_section (kws pre rest : list str) (b1 b2 b3 : str)
    (st : section_state) :
  Forall (fun l => ~ In LF l) (pre ++ b1 :: b2 :: b3 :: rest) ->
  section_scan kws section_init pre = Some st ->
  in_section st = true ->
  strip b1 = [] -> strip b2 = [] -> strip b3 = [] ->
  _extract_section (join_nl (pre ++ b1 :: b2 :: b3 :: rest)) kws = section_result st.
Proof.
  intros Hlf Hscan Hin H1 H2 H3. unfold _extract_section.
  rewrite split_join_nl by (try exact Hlf; destruct pre; discriminate).
  rewrite (section_loop_scan _ _ _ _ _ Hscan).
  assert (forall st0 st1, section_content st1 = section_content st0 ->
                          section_result st1 = section_result st0) as Hres.
  { intros st0 st1 E. unfold section_result. rewrite E. reflexivity. }
  cbn [section_loop].
  destruct (section_step_blank kws st b1 Hin H1) as (s1 & C1 & I1 & N1 & [E1|[E1 L1]]);
    rewrite E1; [apply Hres, C1|].
  cbn [section_loop].
  destruct (section_step_blank kws s1 b2 I1 H2) as (s2 & C2 & I2 & N2 & [E2|[E2 L2]]);
    rewrite E2; [apply Hres; congruence|].
  cbn [section_loop].
  destruct (section_step_blank kws s2 b3 I2 H3) as (s3 & C3 & I3 & N3 & [E3|[E3 L3]]);
    rewrite E3; [apply Hres; congruence|].
  exfalso. lia.
Qed.

End SectionMore.

Lemma section_not_entered_witness :
  @extract_experience plain_db (join_nl [py "Skills"; py "Python, Go"]) = NOT_FOUND.
Proof.
  apply (@section_not_entered plain_db).
  intros line Hin. vm_compute in Hin.
  destruct Hin as [<-|[<-|[]]]; vm_compute; reflexivity.
Defined.

Lemma three_blank_lines_end_section_witness :
  @extract_projects plain_db
    (join_nl [py "Projects"; py "Parser"; py ""; py " "; py ""; py "Later text"])
  = py "Parser".
Proof.
  apply (@three_blank_lines_end_section plain_db projects_keywords
           [py "Projects"; py "Parser"] [py "Later text"] (py "") (py " ") (py "")
           {| in_section := true; empty_line_count := 0%nat;
              section_content := [py "Parser"] |}).
  - repeat constructor; vm_compute; intuition discriminate.
  - vm_compute. reflexivity.
  - reflexivity.
  - reflexivity.
  - reflexivity.
  - reflexivity.
Defined.

(** ** [calculate_skill_match]: the two lists and the extreme scores *)

Section SkillMatchMore.
Context {U : UnicodeDB}.

Lemma extract_skills_empty_text : extract_skills [] = [].
Proof. vm_compute. reflexivity. Qed.

Lemma matched_filter (resume_lower job_skills : list str) :
  filter (fun s => mem (py_lower s)
                     (filter (fun k => mem k (map py_lower job_skills)) resume_lower))
         job_skills
  = filter (fun s => mem (py_lower s) resume_lower) job_skills.
Proof.
  apply filter_ext_in. intros s Hs.
  rewrite mem_filter, (mem_map_lower s job_skills Hs). apply andb_true_r.
Qed.

Lemma missing_filter (resume_lower job_skills : list str) :
  filter (fun s => mem (py_lower s)
                     (filter (fun k => negb (mem k resume_lower)) (map py_lower job_skills)))
         job_skills
  = filter (fun s => negb (mem (py_lower s) resume_lower)) job_skills.
Proof.
  apply filter_ext_in. intros s Hs.
  rewrite mem_filter, (mem_map_lower s job_skills Hs). reflexivity.
Qed.

(** With a non-empty list of resume skills, the matched skills are the
    skills of the job description that equal a resume skill up to case, the
    missing skills are the others, both in the order of the skills of the job
    description. *)
Theorem skill_match_lists (resume_skills : list str) (job_description : str) :
  resume_skills <> [] ->
  snd (fst (calculate_skill_match resume_skills job_description)) =
    filter (fun s => mem (py_lower s) (map py_lower resume_skills))
           (extract_skills job_description) /\
  snd (calculate_skill_match resume_skills job_description) =
    filter (fun s => negb (mem (py_lower s) (map py_lower resume_skills)))
           (extract_skills job_description).
Proof.
  intros Hr. unfold calculate_skill_match.
  destruct job_description as [|c jd].
  - cbn [is_empty orb fst snd]. rewrite extract_skills_empty_text. split; reflexivity.
  - destruct resume_skills as [|r rs]; [congruence|].
    cbn [is_empty length Nat.eqb orb].
    destruct (extract_skills (c :: jd)) as [|j js] eqn:Ej.
    + split; reflexivity.
    + cbn [length Nat.eqb fst snd]. cbv zeta. cbn [fst snd].
      rewrite matched_filter, missing_filter. split; reflexivity.
Qed.

Lemma map_seq_constant {A : Type} (f : nat -> A) (v : A) (start len : nat) :
  map f (List.seq start len) = repeat v len ->
  forall n, (start <= n < start + len)%nat -> f n = v.
Proof.
  revert start. induction len as [|len IH]; intros start H n Hn; [lia|].
  simpl in H. injection H as H0 H.
  destruct (Nat.eq_dec n start) as [->|Hne]; [exact H0|].
  apply (IH (S start) H). lia.
Qed.

(** The scores of a full match and of no match, for every number of skills
    the vocabulary allows, evaluated on the floats. *)
Lemma match_percentage_full_table :
  map (fun n => match_percentage n n) (List.seq 1 (length SKILLS_DB))
  = repeat 100%float (length SKILLS_DB).
Proof. vm_compute. reflexivity. Qed.

Lemma match_percentage_none_table :
  map (fun n => match_percentage 0 n) (List.seq 1 (length SKILLS_DB))
  = repeat 0%float (length SKILLS_DB).
Proof. vm_compute. reflexivity. Qed.

Lemma filter_all {A : Type} (P : A -> bool) (l : list A) :
  (forall x, In x l -> P x = true) -> filter P l = l.
Proof.
  induction l as [|x l IH]; intros H; [reflexivity|].
  simpl. rewrite (H x (or_introl eq_refl)). f_equal. apply IH.
  intros y Hy. apply H. right. exact Hy.
Qed.

Lemma filter_none {A : Type} (P : A -> bool) (l : list A) :
  (forall x, In x l -> P x = false) -> filter P l = [].
Proof.
  induction l as [|x l IH]; intros H; [reflexivity|].
  simpl. rewrite (H x (or_introl eq_refl)). apply IH.
  intros y Hy. apply H. right. exact Hy.
Qed.

(** When every skill detected in the job description equals a resume skill
    up to case, the score is exactly 100.0, all of them are matched and none
    is missing. *)
Theorem skill_match_full (resume_skills : list str) (job_description : str) :
  extract_skills job_description <> [] ->
  (forall s, In s (extract_skills job_description) ->
             mem (py_lower s) (map py_lower resume_skills) = true) ->
  calculate_skill_match resume_skills job_description =
  (100%float, extract_skills job_description, []).
Proof.
  intros Hj Hall.
  pose proof (extract_skills_length job_description) as Hlen.
  unfold calculate_skill_match.
  destruct job_description as [|c jd].
  { exfalso. apply Hj. apply extract_skills_empty_text. }
  destruct resume_skills as [|r rs].
  { exfalso. destruct (extract_skills (c :: jd)) as [|j js]; [congruence|].
    specialize (Hall j (or_introl eq_refl)). discriminate. }
  cbn [is_empty length Nat.eqb orb].
  destruct (extract_skills (c :: jd)) as [|j js] eqn:Ej; [congruence|].
  cbn [length Nat.eqb]. cbv zeta.
  rewrite matched_filter, missing_filter.
  rewrite (filter_all _ _ Hall).
  rewrite filter_none by (intros x Hx; rewrite (Hall x Hx); reflexivity).
  f_equal. f_equal.
  apply (map_seq_constant (fun n => match_percentage n n) 100%float 1 _
           match_percentage_full_table).
  simpl in Hlen |- *. lia.
Qed.

(** When no skill detected in the job description equals a resume skill up
    to case, the score is exactly 0.0, nothing is matched and all of them
    are missing. *)
Theorem skill_match_none (resume_skills : list str) (job_description : str) :
  resume_skills <> [] ->
  (forall s, In s (extract_skills job_description) ->
             mem (py_lower s) (map py_lower resume_skills) = false) ->
  calculate_skill_match resume_skills job_description =
  (0%float, [], extract_skills job_description).
Proof.
  intros Hr Hall.
  pose proof (extract_skills_length job_description) as Hlen.
  unfold calculate_skill_match.
  destruct job_description as [|c jd].
  { cbn [is_empty orb]. rewrite extract_skills_empty_text. reflexivity. }
  destruct resume_skills as [|r rs]; [congruence|].
  cbn [is_empty length Nat.eqb orb].
  destruct (extract_skills (c :: jd)) as [|j js] eqn:Ej; [reflexivity|].
  cbn [length Nat.eqb]. cbv zeta.
  rewrite matched_filter, missing_filter.
  rewrite (filter_none _ _ Hall).
  rewrite filter_all by (intros x Hx; rewrite (Hall x Hx); reflexivity).
  f_equal. f_equal.
  apply (map_seq_constant (fun n => match_percentage 0 n) 0%float 1 _
           match_percentage_none_table).
  simpl in Hlen |- *. lia.
Qed.

End SkillMatchMore.

Lemma skill_match_lists_witness :
  snd (@calculate_skill_match plain_db [py "Python"; py "GO"] (py "python, docker and sql"))
  = [py "Docker"; py "sql"].
Proof.
  refine (eq_trans (proj2 (@skill_match_lists plain_db [py "Python"; py "GO"]
                             (py "python, docker and sql") _)) _).
  - discriminate.
  - vm_compute. reflexivity.
Defined.

Lemma skill_match_full_witness :
  @calculate_skill_match plain_db [py "python"; py "SQL"; py "rust"] (py "Python and sql")
  = (100%float, [py "Python"; py "sql"], []).
Proof.
  refine (eq_trans (@skill_match_full plain_db [py "python"; py "SQL"; py "rust"]
                      (py "Python and sql") _ _) _).
  - vm_compute. discriminate.
  - intros s Hs. vm_compute in Hs. destruct Hs as [<-|[<-|[]]]; vm_compute; reflexivity.
  - vm_compute. reflexivity.
Defined.

Lemma skill_match_none_witness :
  @calculate_skill_match plain_db [py "Rust"] (py "Python and sql")
  = (0%float, [], [py "Python"; py "sql"]).
Proof.
  refine (eq_trans (@skill_match_none plain_db [py "Rust"] (py "Python and sql") _ _) _).
  - discriminate.
  - intros s Hs. vm_compute in Hs. destruct Hs as [<-|[<-|[]]]; vm_compute; reflexivity.
  - vm_compute. reflexivity.
Defined.

(** ** [extract_skills]: ASCII case, larger texts *)

Section SkillsMore.
Context {U : UnicodeDB}.

Lemma lower_upper_char (c : Z) : lower_char (upper_char c) = lower_char c.
Proof.
  unfold lower_char, upper_char, is_ascii_upper, is_ascii_lower, between.
  destruct (Z.leb_spec 97 c), (Z.leb_spec c 122); simpl;
    destruct (Z.leb_spec 65 c), (Z.leb_spec c 90); simpl;
    destruct (Z.leb_spec 65 (c - 32)), (Z.leb_spec (c - 32) 90); simpl; lia.
Qed.

Lemma is_ascii_upper_char (c : Z) : is_ascii c = true -> is_ascii (upper_char c) = true.
Proof.
  unfold upper_char, is_ascii_lower, is_ascii, between.
  intros Hc. apply andb_true_iff in Hc. rewrite !Z.leb_le in Hc.
  destruct (Z.leb_spec 97 c), (Z.leb_spec c 122); simpl;
    apply andb_true_iff; rewrite !Z.leb_le; lia.
Qed.

Lemma py_lower_ascii (t : str) : forallb is_ascii t = true -> py_lower t = map lower_char t.
Proof. intros H. unfold py_lower. rewrite H. reflexivity. Qed.

(** Detection does not see the case of ASCII text: an upper-cased ASCII
    text gives the same skills. *)
Theorem extract_skills_ignores_case (t : str) :
  forallb is_ascii t = true -> extract_skills (py_upper t) = extract_skills t.
Proof.
  intros H. unfold extract_skills. cbv zeta. f_equal. f_equal. f_equal.
  unfold py_upper. rewrite H.
  rewrite py_lower_ascii.
  - rewrite map_map, (py_lower_ascii t H). apply map_ext. apply lower_upper_char.
  - rewrite forallb_forall in H |- *. intros x Hx. apply in_map_iff in Hx.
    destruct Hx as (c & <- & Hc). apply is_ascii_upper_char, H, Hc.
Qed.

(** A vocabulary entry of more than 3 characters detected in an ASCII text
    stays detected when text is added before and after. *)
Theorem long_skill_survives_context (pre t post skill : str) :
  In skill SKILLS_DB -> (3 < length skill)%nat ->
  forallb is_ascii (pre ++ t ++ post) = true ->
  detected t skill -> detected (pre ++ t ++ post) skill.
Proof.
  intros Hin Hlen Hascii.
  rewrite !(detected_iff _ skill Hin), !skill_found_iff.
  apply Nat.leb_gt in Hlen. rewrite Hlen.
  pose proof Hascii as Ha. rewrite !forallb_app in Ha.
  apply andb_true_iff in Ha. destruct Ha as [_ Ha].
  apply andb_true_iff in Ha. destruct Ha as [Ht _].
  rewrite (py_lower_ascii _ Hascii), (py_lower_ascii _ Ht), !map_app.
  intros (a & b & E). rewrite E. exists (map lower_char pre ++ a), (b ++ map lower_char post).
  rewrite <- !app_assoc. reflexivity.
Qed.

End SkillsMore.

Lemma extract_skills_ignores_case_witness :
  @extract_skills plain_db (@py_upper plain_db (py "java and sql")) =
  @extract_skills plain_db (py "java and sql").
Proof. apply (@extract_skills_ignores_case plain_db). vm_compute. reflexivity. Defined.

Lemma long_skill_survives_context_witness :
  @detected plain_db (py "my" ++ py "python" ++ py "ista") (py "python").
Proof.
  apply (@long_skill_survives_context plain_db (py "my") (py "python") (py "ista") (py "python")).
  - vm_compute. tauto.
  - vm_compute. lia.
  - vm_compute. reflexivity.
  - vm_compute. tauto.
Defined.

(** ** The document readers and [parse_resume] *)

Section Readers.
Context {U : UnicodeDB}.

Lemma pdf_pages_text_all (texts : list str) (acc : str) :
  pdf_pages_text (map inr texts) acc = inr (acc ++ flat_map page_contribution texts).
Proof.
  revert acc. induction texts as [|t ts IH]; intros acc; simpl.
  - rewrite app_nil_r. reflexivity.
  - rewrite IH. unfold page_contribution at 2.
    destruct (is_empty t); [reflexivity|]. rewrite <- !app_assoc. reflexivity.
Qed.

Lemma pdf_pages_text_fails (texts : list str) (e : str) (rest : list (str + str))
    (acc : str) :
  pdf_pages_text (map inr texts ++ inl e :: rest) acc = inl e.
Proof.
  revert acc. induction texts as [|t ts IH]; intros acc; simpl; [reflexivity|apply IH].
Qed.

Lemma pdf_text_of_pages (L : Libraries) (reader : pdf_library)
    (file_path : str) (texts : list str) (calls : list event) :
  PdfReader L = Some reader ->
  reader file_path = inr (map inr texts) ->
  extract_text_from_pdf L file_path calls =
  (inr (strip (flat_map page_contribution texts)), calls ++ [OpenPdf file_path]).
Proof.
  intros HL Hr. unfold extract_text_from_pdf, bind, emit. rewrite HL, Hr.
  rewrite pdf_pages_text_all. reflexivity.
Qed.

(** When every page yields its text, the text of the PDF is the texts of
    the pages that have some, each followed by a line feed, in order, and
    stripped; the reader is called once. *)
Theorem extract_text_from_pdf_pages (L : Libraries) (reader : pdf_library)
    (file_path : str) (texts : list str) (calls : list event) :
  PdfReader L = Some reader ->
  reader file_path = inr (map inr texts) ->
  extract_text_from_pdf L file_path calls =
  (inr (strip (flat_map page_contribution texts)), calls ++ [OpenPdf file_path]).
Proof. apply pdf_text_of_pages. Qed.

(** A page whose extraction raises makes the whole reading fail with the
    message of that exception, whatever the pages before it held. *)
Theorem extract_text_from_pdf_page_error (L : Libraries) (reader : pdf_library)
    (file_path e : str) (texts : list str) (rest : list (str + str))
    (calls : list event) :
  PdfReader L = Some reader ->
  reader file_path = inr (map inr texts ++ inl e :: rest) ->
  extract_text_from_pdf L file_path calls =
  (inl (ValueError (py "Error reading PDF file: " ++ e)), calls ++ [OpenPdf file_path]).
Proof.
  intros HL Hr. unfold extract_text_from_pdf, bind, emit. rewrite HL, Hr.
  rewrite pdf_pages_text_fails. reflexivity.
Qed.

End Readers.

Section EntryMore.
Context {U : UnicodeDB}.

Lemma dispatch_cases (ext : str) :
  (str_eqb ext (py ".pdf") = true /\ ext = py ".pdf") \/
  (str_eqb ext (py ".pdf") = false /\ mem ext [py ".docx"; py ".doc"] = true /\
   (ext = py ".docx" \/ ext = py ".doc")) \/
  (str_eqb ext (py ".pdf") = false /\ mem ext [py ".docx"; py ".doc"] = false).
Proof.
  destruct (str_eqb ext (py ".pdf")) eqn:E1.
  - left. split; [reflexivity|]. apply str_eqb_eq, E1.
  - right. destruct (mem ext [py ".docx"; py ".doc"]) eqn:E2.
    + left. repeat split. apply mem_In in E2. destruct E2 as [E|[E|[]]]; auto.
    + right. auto.
Qed.

Lemma extract_text_from_pdf_calls (L : Libraries) (path : str) (calls : list event) :
  snd (extract_text_from_pdf L path calls) = calls \/
  snd (extract_text_from_pdf L path calls) = calls ++ [OpenPdf path].
Proof.
  unfold extract_text_from_pdf, bind, emit.
  destruct (PdfReader L) as [reader|]; [right|left; reflexivity].
  destruct (reader path) as [e|pages]; [reflexivity|].
  destruct (pdf_pages_text pages []); reflexivity.
Qed.

Lemma extract_text_from_docx_calls (L : Libraries) (path : str) (calls : list event) :
  snd (extract_text_from_docx L path calls) = calls \/
  snd (extract_text_from_docx L path calls) = calls ++ [OpenDocx path].
Proof.
  unfold extract_text_from_docx, bind, emit.
  destruct (Document L) as [open|]; [right|left; reflexivity].
  destruct (open path) as [e|[paragraphs tables]]; reflexivity.
Qed.

Lemma bind_calls {A B : Type} (m : io A) (f : A -> io B) (calls : list event) :
  (forall x tr, snd (f x tr) = tr) ->
  snd (bind m f calls) = snd (m calls).
Proof.
  intros H. unfold bind. destruct (m calls) as [[e|x] tr]; [reflexivity|apply H].
Qed.

(** [parse_resume] calls at most one reader, at most once, on the path it
    was given: the PDF reader only for [.pdf], the DOCX reader only for
    [.docx] and [.doc]. *)
Theorem parse_resume_reader_calls (L : Libraries)
    (file_path file_extension job_description : str) (calls : list event) :
  let after := snd (parse_resume L file_path file_extension job_description calls) in
  after = calls \/
  (py_lower file_extension = py ".pdf" /\ after = calls ++ [OpenPdf file_path]) \/
  ((py_lower file_extension = py ".docx" \/ py_lower file_extension = py ".doc") /\
   after = calls ++ [OpenDocx file_path]).
Proof.
  cbv zeta. unfold parse_resume. cbv zeta.
  rewrite bind_calls.
  2:{ intros raw tr. destruct (is_empty (strip raw)); reflexivity. }
  destruct (dispatch_cases (py_lower file_extension))
    as [[E1 He]|[(E1 & E2 & He)|[E1 E2]]]; rewrite E1; try rewrite E2.
  - destruct (extract_text_from_pdf_calls L file_path calls) as [H|H]; auto.
  - destruct (extract_text_from_docx_calls L file_path calls) as [H|H]; auto.
  - left. reflexivity.
Qed.

(** A supported extension whose reader library is not installed fails with
    an import error, and nothing is read. *)
Theorem parse_resume_missing_reader (L : Libraries)
    (file_path file_extension job_description : str) (calls : list event) :
  (py_lower file_extension = py ".pdf" /\ PdfReader L = None) \/
  ((py_lower file_extension = py ".docx" \/ py_lower file_extension = py ".doc") /\
   Document L = None) ->
  exists msg,
    parse_resume L file_path file_extension job_description calls =
    (inl (ImportError msg), calls).
Proof.
  intros [[He Hl]|[He Hl]]; unfold parse_resume, bind; cbv zeta.
  - rewrite He. cbn [str_eqb py]. change (str_eqb (py ".pdf") (py ".pdf")) with true.
    cbv iota. unfold extract_text_from_pdf. rewrite Hl. eexists. reflexivity.
  - destruct He as [He|He]; rewrite He;
      [change (str_eqb (py ".docx") (py ".pdf")) with false
      |change (str_eqb (py ".doc") (py ".pdf")) with false]; cbv iota;
      [change (mem (py ".docx") [py ".docx"; py ".doc"]) with true
      |change (mem (py ".doc") [py ".docx"; py ".doc"]) with true]; cbv iota;
      unfold extract_text_from_docx; rewrite Hl; eexists; reflexivity.
Qed.

Lemma strip_blank (s : str) : Forall (fun c => is_space c = true) s -> strip s = [].
Proof. intros H. unfold strip. rewrite lstrip_blank by exact H. reflexivity. Qed.

Lemma flat_map_Forall {A : Type} (P : Z -> Prop) (f : A -> str) (l : list A) :
  (forall x, In x l -> Forall P (f x)) -> Forall P (flat_map f l).
Proof.
  induction l as [|x l IH]; intros H; simpl; [constructor|].
  apply Forall_app. split; [apply H; left; reflexivity|].
  apply IH. intros y Hy. apply H. right. exact Hy.
Qed.

(** A PDF whose pages hold nothing but whitespace is rejected: the error
    says that no text could be extracted. *)
Theorem parse_resume_blank_pdf (L : Libraries) (reader : pdf_library)
    (file_path file_extension job_description : str) (texts : list str)
    (calls : list event) :
  py_lower file_extension = py ".pdf" ->
  PdfReader L = Some reader ->
  reader file_path = inr (map inr texts) ->
  Forall (Forall (fun c => is_space c = true)) texts ->
  parse_resume L file_path file_extension job_description calls =
  (inl (ValueError (py "Could not extract any text from the file. It may be an image-based PDF or a corrupted file.")),
   calls ++ [OpenPdf file_path]).
Proof.
  intros He HL Hr Hb. unfold parse_resume. cbv zeta. rewrite He.
  change (str_eqb (py ".pdf") (py ".pdf")) with true. cbv iota.
  unfold bind. rewrite (pdf_text_of_pages L reader file_path texts calls HL Hr).
  assert (strip (flat_map page_contribution texts) = []) as E.
  { apply strip_blank, flat_map_Forall. intros t Ht.
    rewrite Forall_forall in Hb. specialize (Hb t Ht).
    unfold page_contribution. destruct (is_empty t); [constructor|].
    apply Forall_app. split; [exact Hb|repeat constructor]. }
  rewrite E. reflexivity.
Qed.

Lemma firstn_length_exact {A : Type} (n : nat) (l : list A) :
  (n < length l)%nat -> length (firstn n l) = n.
Proof. intros H. rewrite length_firstn. lia. Qed.

Lemma preview_bounds (cleaned_text : str) :
  let preview :=
    if (800 <? length cleaned_text)%nat
    then firstn 800 cleaned_text ++ [LF] ++ py "...[truncated]"
    else cleaned_text in
  (length preview <= 815)%nat /\
  ((length preview <= 800)%nat \/
   exists body, length body = 800%nat /\ preview = body ++ [LF] ++ py "...[truncated]").
Proof.
  cbv zeta. destruct (800 <? length cleaned_text)%nat eqn:E.
  - apply Nat.ltb_lt in E.
    pose proof (firstn_length_exact 800 cleaned_text E) as Hl.
    split.
    + rewrite length_app, Hl.
      change (length ([LF] ++ py "...[truncated]")) with 15%nat. lia.
    + right. exists (firstn 800 cleaned_text). auto.
  - apply Nat.ltb_ge in E. split; [lia|left; exact E].
Qed.

(** The preview of a parsed resume has at most 815 characters: it is the
    normalised text when that has at most 800, and otherwise its first 800
    characters followed by a line feed and the truncation marker. *)
Theorem parse_resume_preview (L : Libraries)
    (file_path file_extension job_description : str) (calls calls' : list event)
    (parsed : ParsedResume) :
  parse_resume L file_path file_extension job_description calls = (inr parsed, calls') ->
  (length (raw_text_preview parsed) <= 815)%nat /\
  ((length (raw_text_preview parsed) <= 800)%nat \/
   exists body, length body = 800%nat /\
                raw_text_preview parsed = body ++ [LF] ++ py "...[truncated]").
Proof.
  unfold parse_resume, bind. cbv zeta.
  destruct (if str_eqb _ _ then _ else _) as [[e|raw] tr]; [discriminate|].
  destruct (is_empty (strip raw)); [discriminate|].
  unfold ret. intros H. injection H as <- _.
  exact (preview_bounds (clean_text raw)).
Qed.

End EntryMore.

Lemma extract_text_from_pdf_pages_witness :
  extract_text_from_pdf two_pages (py "/tmp/cv.pdf") [] =
  (inr (join_nl [py "Jane Roe"; py "Python, SQL"]), [OpenPdf (py "/tmp/cv.pdf")]).
Proof.
  refine (eq_trans (extract_text_from_pdf_pages two_pages
                      (fun _ => inr [inr []; inr (join_nl [py "Jane Roe"; py "Python, SQL"])])
                      (py "/tmp/cv.pdf")
                      [[]; join_nl [py "Jane Roe"; py "Python, SQL"]] [] eq_refl eq_refl) _).
  vm_compute. reflexivity.
Defined.

Lemma extract_text_from_pdf_page_error_witness :
  extract_text_from_pdf broken_page (py "/tmp/cv.pdf") [] =
  (inl (ValueError (py "Error reading PDF file: bad stream")), [OpenPdf (py "/tmp/cv.pdf")]).
Proof.
  exact (extract_text_from_pdf_page_error broken_page
           (fun _ => inr [inr (py "page one"); inl (py "bad stream")])
           (py "/tmp/cv.pdf") (py "bad stream") [py "page one"] [] [] eq_refl eq_refl).
Defined.

Lemma parse_resume_missing_reader_witness :
  exists msg,
    @parse_resume plain_db two_pages (py "/tmp/cv.docx") (py ".DOCX") [] [] =
    (inl (ImportError msg), []).
Proof.
  apply (@parse_resume_missing_reader plain_db two_pages).
  right. split; [left; vm_compute; reflexivity|reflexivity].
Defined.

Lemma parse_resume_blank_pdf_witness :
  @parse_resume plain_db blank_page (py "/tmp/scan.pdf") (py ".pdf") [] [] =
  (inl (ValueError (py "Could not extract any text from the file. It may be an image-based PDF or a corrupted file.")),
   [OpenPdf (py "/tmp/scan.pdf")]).
Proof.
  apply (@parse_resume_blank_pdf plain_db blank_page
           (fun _ => inr [inr (py "  "); inr [9; 10]]) (py "/tmp/scan.pdf") (py ".pdf") []
           [py "  "; [9; 10]] [] eq_refl eq_refl eq_refl).
  repeat constructor.
Defined.

Lemma parse_resume_preview_witness :
  exists parsed,
    @parse_resume plain_db two_pages (py "/tmp/cv.pdf") (py ".pdf") [] [] =
      (inr parsed, [OpenPdf (py "/tmp/cv.pdf")]) /\
    (length (raw_text_preview parsed) <= 815)%nat.
Proof.
  eexists. split.
  - vm_compute. reflexivity.
  - eapply (@parse_resume_preview plain_db two_pages (py "/tmp/cv.pdf") (py ".pdf") [] []).
    vm_compute. reflexivity.
Defined.

(** ** [_clean_line] *)

Section CleanLine.
Context {U : UnicodeDB}.

Lemma single_spaced_cons (c : Z) (s : str) :
  is_space c = false -> single_spaced s -> single_spaced (c :: s).
Proof.
  intros Hc Hs. destruct s as [|d s]; [exact I|].
  split; [intros H; congruence|exact Hs].
Qed.

Lemma single_spaced_tail (c : Z) (s : str) : single_spaced (c :: s) -> single_spaced s.
Proof. destruct s; simpl; tauto. Qed.

Lemma sub_ws_2plus_spaced (run s : str) : single_spaced (sub_ws_2plus run s).
Proof.
  revert run. induction s as [|c s IH]; intros run; cbn [sub_ws_2plus].
  - destruct run as [|w [|w' run]]; exact I.
  - destruct (is_space c) eqn:Ec; [apply IH|].
    pose proof (single_spaced_cons c _ Ec (IH [])) as H.
    destruct run as [|w [|w' run]]; cbn [app].
    + exact H.
    + split; [intros _; exact Ec|exact H].
    + split; [intros _; exact Ec|exact H].
Qed.

Lemma sub_ws_2plus_Forall (P : Z -> Prop) (run s : str) :
  P SP -> Forall P run -> Forall P s -> Forall P (sub_ws_2plus run s).
Proof.
  intros HP Hrun Hs. revert run Hrun.
  induction Hs as [|c s Hc Hs IH]; intros run Hrun; cbn [sub_ws_2plus].
  - destruct run as [|w [|w' run]]; [constructor| |repeat constructor; exact HP].
    inversion Hrun; subst. repeat constructor. assumption.
  - destruct (is_space c).
    + apply IH. constructor; assumption.
    + apply Forall_app. split.
      * destruct run as [|w [|w' run]]; [constructor| |repeat constructor; exact HP].
        inversion Hrun; subst. repeat constructor. assumption.
      * constructor; [exact Hc|]. apply IH. constructor.
Qed.

Lemma lstrip_spaced (s : str) : single_spaced s -> single_spaced (lstrip s).
Proof.
  induction s as [|c s IH]; intros H; [exact I|].
  simpl lstrip. destruct (is_space c); [|exact H].
  apply IH, (single_spaced_tail c), H.
Qed.

Lemma rstrip_keeps_head (c : Z) (s : str) :
  rstrip (c :: s) = [] \/ exists r, rstrip (c :: s) = c :: r.
Proof.
  simpl. destruct (rstrip s) as [|d r].
  - destruct (is_space c); [left; reflexivity|right; exists []; reflexivity].
  - right. eauto.
Qed.

Lemma rstrip_spaced (s : str) : single_spaced s -> single_spaced (rstrip s).
Proof.
  induction s as [|c s IH]; intros H; [exact I|].
  pose proof (IH (single_spaced_tail c s H)) as IH'.
  change (rstrip (c :: s))
    with (match rstrip s with
          | [] => if is_space c then [] else [c]
          | r => c :: r
          end).
  destruct s as [|d s].
  - simpl. destruct (is_space c); exact I.
  - destruct (rstrip_keeps_head d s) as [E|[r E]]; rewrite E in IH' |- *.
    + destruct (is_space c); exact I.
    + destruct H as [H _]. split; [exact H|exact IH'].
Qed.

(** A cleaned line holds only letters [A-Za-z], whitespace, dots and
    hyphens; it has no whitespace at either end and no two whitespace
    characters in a row. *)
Theorem clean_line_shape (line : str) :
  Forall (fun c => is_ascii_letter c || is_space c || chr ".-" c = true) (_clean_line line) /\
  strip (_clean_line line) = _clean_line line /\
  single_spaced (_clean_line line).
Proof.
  unfold _clean_line. cbv zeta. split; [|split].
  - apply Forall_strip, sub_ws_2plus_Forall; [reflexivity|constructor|].
    apply Forall_map, Forall_forall. intros c _.
    destruct (is_ascii_letter c || is_space c || chr ".-" c) eqn:E; [exact E|reflexivity].
  - apply strip_fixed, strip_stripped.
  - apply rstrip_spaced, lstrip_spaced, sub_ws_2plus_spaced.
Qed.

End CleanLine.

(** ** Profile links *)

Section LinksFacts.
Context {U : UnicodeDB}.

Lemma rstrip_chars_last (p : Z -> bool) (s : str) :
  rstrip_chars p s = [] \/ p (last (rstrip_chars p s) 0) = false.
Proof.
  induction s as [|c s IH]; simpl; [left; reflexivity|].
  destruct (rstrip_chars p s) as [|d r] eqn:E.
  - destruct (p c) eqn:Ec; [left; reflexivity|right; exact Ec].
  - right. destruct IH as [IH|IH]; [discriminate|].
    change (last (c :: d :: r) 0) with (last (d :: r) 0). exact IH.
Qed.

Lemma last_app_nonempty (a b : str) (d : Z) : b <> [] -> last (a ++ b) d = last b d.
Proof.
  intros Hb. induction a as [|x a IH]; [reflexivity|].
  simpl. destruct (a ++ b) eqn:E; [|exact IH].
  apply app_eq_nil in E. destruct E as [_ E]. congruence.
Qed.

(** A finished URL has a scheme and no trailing full stop, comma, semicolon
    or closing bracket. *)
Lemma finish_url_shape (m : str) :
  (startswith (py "https://") (finish_url m) = true \/
   startswith (py "http") (py_lower (finish_url m)) = true) /\
  chr ".,;)" (last (finish_url m) 0) = false.
Proof.
  unfold finish_url. cbv zeta.
  set (url := rstrip_chars (chr ".,;)") (strip m)).
  destruct (startswith (py "http") (py_lower url)) eqn:E; cbn [negb].
  - split; [right; exact E|].
    destruct (rstrip_chars_last (chr ".,;)") (strip m)) as [H|H]; fold url in H.
    + rewrite H in E. vm_compute in E. discriminate.
    + exact H.
  - split; [left; reflexivity|].
    destruct (rstrip_chars_last (chr ".,;)") (strip m)) as [H|H]; fold url in H.
    + rewrite H. reflexivity.
    + destruct url as [|c u] eqn:Eu; [reflexivity|].
      rewrite last_app_nonempty; [exact H|discriminate].
Qed.

Lemma first_at_some {A : Type} (m : option Z -> str -> option A) (prev : option Z)
    (s : str) (x : A) :
  first_at m prev s = Some x ->
  exists pre post, s = pre ++ post /\ m (last_char prev pre) post = Some x.
Proof.
  revert prev. induction s as [|c s IH]; intros prev H; cbn [first_at] in H.
  - exists [], []. split; [reflexivity|].
    change (last_char prev []) with prev.
    destruct (m prev []) as [y|] eqn:E; [exact H|discriminate].
  - destruct (m prev (c :: s)) as [y|] eqn:E.
    + exists [], (c :: s). split; [reflexivity|].
      change (last_char prev []) with prev. congruence.
    + destruct (IH _ H) as (pre & post & -> & Hm).
      exists (c :: pre), post. rewrite last_char_cons. auto.
Qed.

Lemma means_lit_fold (w l : str) (prev next : option Z) :
  means (lit_fold w) prev l next -> folds_to w l.
Proof.
  revert l prev. induction w as [|c w IH]; intros l prev H; cbn [lit_fold means] in H.
  - subst. constructor.
  - destruct H as (m1 & m2 & -> & (x & -> & Hx) & H2).
    constructor; [exact Hx|]. eapply IH, H2.
Qed.

(** Where the LinkedIn pattern matches, the text reads [linkedin.com/in/]
    up to case folding. *)
Lemma linkedin_match_literal {A : Type} (k : cont A) (prev : option Z) (s : str) (a : A) :
  linkedin_match k prev s = Some a ->
  exists l, occurs l s /\ folds_to (py "linkedin.com/in/") l.
Proof.
  intros H. unfold linkedin_match in H.
  destruct (matchre_sound _ _ _ _ _ H) as (m & rest & -> & Hm & _).
  cbn [Re.seq means] in Hm.
  destruct Hm as (h & r1 & -> & _ & l & r2 & -> & Hl & _).
  exists l. split; [|eapply means_lit_fold, Hl].
  exists h, (r2 ++ rest). rewrite <- !app_assoc. reflexivity.
Qed.

Lemma occurs_in_suffix (l pre post : str) : occurs l post -> occurs l (pre ++ post).
Proof.
  intros (a & b & ->). exists (pre ++ a), b. rewrite <- app_assoc. reflexivity.
Qed.

(** The LinkedIn URL returned is the sentinel or has a scheme; it never
    ends with a full stop, a comma, a semicolon or a closing bracket; and
    there is one only when the text reads [linkedin.com/in/] somewhere, up to
    case folding. *)
Theorem extract_linkedin_url (text : str) :
  has_scheme (extract_linkedin text) /\
  chr ".,;)" (last (extract_linkedin text) 0) = false /\
  (extract_linkedin text = NOT_FOUND \/
   exists l, occurs l text /\ folds_to (py "linkedin.com/in/") l).
Proof.
  unfold extract_linkedin, has_scheme.
  destruct (first_at (here_with linkedin_match) None text) as [m|] eqn:E.
  - destruct (finish_url_shape m) as [Hs Hl].
    split; [right; exact Hs|]. split; [exact Hl|]. right.
    destruct (first_at_some _ _ _ _ E) as (pre & post & -> & Hm).
    unfold here_with in Hm.
    destruct (linkedin_match (fun _ rest => Some rest) (last_char None pre) post)
      as [rest|] eqn:Er; [|discriminate].
    destruct (linkedin_match_literal _ _ _ _ Er) as (l & Ho & Hf).
    exists l. split; [apply occurs_in_suffix, Ho|exact Hf].
  - split; [left; reflexivity|]. split; [reflexivity|left; reflexivity].
Qed.

Lemma github_match_literal {A : Type} (k : cont A) (prev : option Z) (s : str) (a : A) :
  github_match k prev s = Some a ->
  exists l, occurs l s /\ folds_to (py "github") l.
Proof.
  intros H. unfold github_match in H.
  destruct (matchre_sound _ _ _ _ _ H) as (m & rest & -> & Hm & _).
  cbn [Re.seq means] in Hm.
  destruct Hm as (h & r1 & -> & _ & l & r2 & -> & Hl & _).
  apply means_lit_fold in Hl.
  change (py "github.com/") with (py "github" ++ py ".com/") in Hl.
  apply Forall2_app_inv_l in Hl. destruct Hl as (l1 & l2 & Hl1 & _ & ->).
  exists l1. split; [|exact Hl1].
  exists h, (l2 ++ r2 ++ rest). rewrite <- !app_assoc. reflexivity.
Qed.

Lemma github_username_last (prev : option Z) (s m : str) :
  match_here github_username prev s = Some m ->
  m <> [] /\ (length m <= 39)%nat /\ Forall (fun c => github_user_char c = true) m.
Proof.
  intros H. destruct (match_here_sound _ _ _ _ H) as (rest & _ & Hm).
  unfold github_username in Hm. cbn [means] in Hm.
  destruct Hm as (m1 & m2 & -> & (c & -> & Hc) & (Hall & _ & Hlen)).
  split; [discriminate|]. split; [simpl in *; lia|].
  constructor; [|exact Hall].
  unfold github_user_char. rewrite Hc. reflexivity.
Qed.

Lemma user_char_not_punct (c : Z) : github_user_char c = true -> chr ".,;)" c = false.
Proof.
  unfold github_user_char, github_user_first, is_letter_fold, is_ascii_letter,
    is_ascii_upper, is_ascii_lower, is_ascii_digit, between, chr.
  cbn [py map list_ascii_of_string existsb].
  rewrite !orb_true_iff, !andb_true_iff, !Z.leb_le, !Z.eqb_eq.
  intros H. repeat rewrite orb_false_iff. rewrite !Z.eqb_neq.
  vm_compute N_of_ascii. simpl Z.of_N. repeat split; lia.
Qed.

(** The GitHub URL returned is the sentinel or has a scheme; it never ends
    with a full stop, a comma, a semicolon or a closing bracket; and there is
    one only when the text reads [github] somewhere, up to case folding. *)
Theorem extract_github_url (text : str) :
  has_scheme (extract_github text) /\
  chr ".,;)" (last (extract_github text) 0) = false /\
  (extract_github text = NOT_FOUND \/
   exists l, occurs l text /\ folds_to (py "github") l).
Proof.
  unfold extract_github, has_scheme.
  destruct (first_at (here_with github_match) None text) as [m|] eqn:E.
  - destruct (finish_url_shape m) as [Hs Hl].
    split; [right; exact Hs|]. split; [exact Hl|]. right.
    destruct (first_at_some _ _ _ _ E) as (pre & post & -> & Hm).
    unfold here_with in Hm.
    destruct (github_match (fun _ rest => Some rest) (last_char None pre) post)
      as [rest|] eqn:Er; [|discriminate].
    destruct (github_match_literal _ _ _ _ Er) as (l & Ho & Hf).
    exists l. split; [apply occurs_in_suffix, Ho|exact Hf].
  - destruct (first_at (matchre github_label (match_here github_username)) None text)
      as [username|] eqn:El.
    + destruct (first_at_some _ _ _ _ El) as (pre & post & -> & Hm).
      destruct (matchre_sound _ _ _ _ _ Hm) as (m & rest & -> & Hmean & Hk).
      destruct (github_username_last _ _ _ Hk) as (Hne & _ & Hall).
      split; [right; left; reflexivity|]. split.
      * rewrite last_app_nonempty by exact Hne.
        apply user_char_not_punct.
        rewrite Forall_forall in Hall. apply Hall.
        destruct username as [|c u]; [congruence|].
        apply (@exists_last _ (c :: u)) in Hne. destruct Hne as (u' & z & Hz).
        rewrite Hz. rewrite last_last. apply in_or_app. right. left. reflexivity.
      * right. cbn [Re.seq means] in Hmean.
        destruct Hmean as (l & r1 & -> & Hl & _).
        exists l. split; [|eapply means_lit_fold, Hl].
        exists pre, (r1 ++ rest). rewrite <- !app_assoc. reflexivity.
    + split; [left; reflexivity|]. split; [reflexivity|left; reflexivity].
Qed.

End LinksFacts.

Lemma extract_linkedin_example {U : UnicodeDB} :
  extract_linkedin (py "linkedin.com/in/jane-doe/details?x=1")
  = py "https://linkedin.com/in/jane-doe/details?x=1".
Proof. vm_compute. reflexivity. Qed.

Lemma extract_github_label_example {U : UnicodeDB} :
  extract_github (py "GitHub: octocat") = py "https://github.com/octocat".
Proof. vm_compute. reflexivity. Qed.

(** ** [extract_education] *)

Section EducationFacts.
Context {U : UnicodeDB}.

Lemma fromkeys_nodup (seen l : list str) :
  NoDup (fromkeys seen l) /\
  (forall x, In x (fromkeys seen l) -> In x l /\ ~ In x seen).
Proof.
  revert seen. induction l as [|y l IH]; intros seen; simpl.
  - split; [constructor|intros x []].
  - destruct (mem y seen) eqn:Em.
    + destruct (IH seen) as [Hn Hi]. split; [exact Hn|].
      intros x Hx. destruct (Hi x Hx). auto.
    + destruct (IH (y :: seen)) as [Hn Hi]. split.
      * constructor; [|exact Hn]. intros Hy. destruct (Hi y Hy) as [_ Hs].
        apply Hs. left. reflexivity.
      * intros x [<-|Hx].
        -- split; [left; reflexivity|]. intros Hin. apply mem_In in Hin. congruence.
        -- destruct (Hi x Hx) as [H1 H2]. split; [right; exact H1|].
           intros Hin. apply H2. right. exact Hin.
Qed.

Lemma fromkeys_length (seen l : list str) : (length (fromkeys seen l) <= length l)%nat.
Proof.
  revert seen. induction l as [|y l IH]; intros seen; simpl; [lia|].
  destruct (mem y seen); [specialize (IH seen)|specialize (IH (y :: seen))]; simpl; lia.
Qed.

Lemma alt_match_sound {A : Type} (rs : list regex) (k : cont A) (prev : option Z)
    (s : str) (a : A) :
  alt_match rs k prev s = Some a ->
  exists r, In r rs /\ matchre r k prev s = Some a.
Proof.
  induction rs as [|r rs IH]; cbn [alt_match]; [discriminate|].
  destruct (matchre r k prev s) as [x|] eqn:E.
  - intros H. injection H as ->. exists r. split; [left; reflexivity|exact E].
  - intros H. destruct (IH H) as (r' & Hin & Hm). exists r'. split; [right|]; assumption.
Qed.

(** Where the degree pattern matches, the text reads a degree name and then
    at most 120 characters of the same line. *)
Lemma degree_match_sound {A : Type} (k : cont A) (prev : option Z) (s : str) (a : A) :
  degree_match k prev s = Some a ->
  exists m tail p, s = m ++ tail /\ degree_text m /\ k p tail = Some a.
Proof.
  unfold degree_match. intros H.
  apply alt_match_sound in H. destruct H as (r & Hin & H).
  apply matchre_sound in H. destruct H as (name & rest0 & -> & Hname & H).
  apply matchre_sound in H. destruct H as (rest & tail & -> & Hrest & Hk).
  unfold times in Hrest. cbn [means within] in Hrest.
  destruct Hrest as (Hall & _ & Hlen).
  exists (name ++ rest), tail, (last_char (last_char prev name) rest).
  split; [rewrite app_assoc; reflexivity|]. split; [|exact Hk].
  exists name, rest. split; [reflexivity|]. split; [eauto|]. split; [|exact Hlen].
  intros Hlf. rewrite Forall_forall in Hall. specialize (Hall LF Hlf).
  discriminate.
Qed.

Lemma here_with_degree (prev : option Z) (s x : str) :
  here_with degree_match prev s = Some x ->
  degree_text x /\ exists post, s = x ++ post.
Proof.
  unfold here_with.
  destruct (degree_match (fun _ rest => Some rest) prev s) as [rest|] eqn:E; [|discriminate].
  intros H. injection H as <-.
  apply degree_match_sound in E. destruct E as (m & tail & p & -> & Hd & Hk).
  injection Hk as ->.
  rewrite length_app, Nat.add_sub, firstn_app, firstn_all, Nat.sub_diag.
  cbn [firstn]. rewrite app_nil_r. split; [exact Hd|eauto].
Qed.

Lemma occurs_cons (x : str) (c : Z) (s : str) : occurs x s -> occurs x (c :: s).
Proof. intros (pre & post & ->). exists (c :: pre), post. reflexivity. Qed.

Lemma occurs_skipn (x : str) (n : nat) (s : str) : occurs x (skipn n s) -> occurs x s.
Proof.
  intros (pre & post & E). exists (firstn n s ++ pre), post.
  rewrite <- app_assoc, <- E. symmetry. apply firstn_skipn.
Qed.

(** Every match that [re.findall] reports for the degree pattern is a degree
    match and a piece of the text. *)
Lemma findall_degree_sound (fuel : nat) (prev : option Z) (s x : str) :
  In x (findall_with fuel degree_match prev s) -> degree_text x /\ occurs x s.
Proof.
  revert prev s. induction fuel as [|fuel IH]; intros prev s; cbn [findall_with];
    [intros []|].
  destruct (here_with degree_match prev s) as [found|] eqn:E.
  - destruct (here_with_degree _ _ _ E) as (Hd & post & Hs).
    assert (x = found -> degree_text x /\ occurs x s) as Hfound.
    { intros ->. split; [exact Hd|]. exists [], post. exact Hs. }
    destruct found as [|f fs].
    + intros [Hx|Hx]; [auto|].
      destruct s as [|c s']; [destruct Hx|].
      destruct (IH _ _ Hx) as [H1 H2]. split; [exact H1|apply occurs_cons, H2].
    + intros [Hx|Hx]; [auto|].
      destruct (IH _ _ Hx) as [H1 H2]. split; [exact H1|].
      eapply occurs_skipn, H2.
  - destruct s as [|c s']; [intros []|].
    intros Hx. destruct (IH _ _ Hx) as [H1 H2]. split; [exact H1|apply occurs_cons, H2].
Qed.

Lemma In_firstn {A : Type} (n : nat) (l : list A) (x : A) : In x (firstn n l) -> In x l.
Proof.
  revert l. induction n as [|n IH]; intros [|y l]; simpl; try tauto.
  intros [H|H]; [left; exact H|right; apply IH, H].
Qed.

(** When the education section is found, its content is the result.  When
    it is not, the result is the sentinel or at most six lines, all
    different, each of them the stripped form of a degree match of the text:
    a piece of the text that reads a degree name, up to case folding,
    followed by at most 120 characters of the same line. *)
Theorem extract_education_result (text : str) :
  (_extract_section text education_keywords <> NOT_FOUND ->
   extract_education text = _extract_section text education_keywords) /\
  (_extract_section text education_keywords = NOT_FOUND ->
   extract_education text = NOT_FOUND \/
   exists ls, extract_education text = join_nl ls /\ ls <> [] /\
              (length ls <= 6)%nat /\ NoDup ls /\ Forall stripped ls /\
              Forall (fun l => exists m, occurs m text /\ degree_text m /\ l = strip m) ls).
Proof.
  unfold extract_education. cbv zeta. split.
  - intros H. destruct (str_eqb _ NOT_FOUND) eqn:E; [|reflexivity].
    apply str_eqb_eq in E. contradiction.
  - intros H. rewrite H. change (str_eqb NOT_FOUND NOT_FOUND) with true. cbv iota.
    destruct (findall_with (S (length text)) degree_match None text) as [|m ms] eqn:Ef;
      [left; reflexivity|right].
    set (found := m :: ms) in *.
    exists (fromkeys [] (map strip (firstn 6 found))).
    split; [reflexivity|]. split; [|split; [|split; [|split]]].
    + subst found. cbn [firstn map fromkeys mem existsb]. discriminate.
    + etransitivity; [apply fromkeys_length|].
      rewrite length_map, length_firstn. lia.
    + apply fromkeys_nodup.
    + apply Forall_forall. intros x Hx.
      apply fromkeys_nodup in Hx. destruct Hx as [Hx _].
      apply in_map_iff in Hx. destruct Hx as (y & <- & _). apply strip_stripped.
    + apply Forall_forall. intros x Hx.
      apply fromkeys_nodup in Hx. destruct Hx as [Hx _].
      apply in_map_iff in Hx. destruct Hx as (y & <- & Hy).
      apply In_firstn in Hy. rewrite <- Ef in Hy.
      apply findall_degree_sound in Hy. destruct Hy as [Hd Ho].
      exists y. auto.
Qed.

End EducationFacts.

Lemma extract_education_fallback_example {U : UnicodeDB} :
  extract_education (join_nl [py "B.Tech in CS, 2019"; py "M.Tech in AI"; py "B.Tech in CS, 2019"])
  = join_nl [py "B.Tech in CS, 2019"; py "M.Tech in AI"].
Proof. vm_compute. reflexivity. Qed.

(** ** [allowed_file] *)

Section AllowedFile.
Context {U : UnicodeDB}.

Lemma after_last_dot_none (s : str) : ~ In 46 s -> after_last_dot s = None.
Proof.
  induction s as [|c s IH]; intros H; [reflexivity|].
  simpl. rewrite IH by (simpl in H; tauto).
  destruct (Z.eqb_spec c 46) as [->|Hc]; [simpl in H; tauto|reflexivity].
Qed.

Lemma after_last_dot_some (s ext : str) :
  after_last_dot s = Some ext <->
  exists stem, s = stem ++ [46] ++ ext /\ ~ In 46 ext.
Proof.
  split.
  - revert ext. induction s as [|c s IH]; intros ext H; [discriminate|].
    simpl in H. destruct (after_last_dot s) as [e|] eqn:E.
    + injection H as ->. destruct (IH ext eq_refl) as (stem & -> & Hn).
      exists (c :: stem). auto.
    + destruct (Z.eqb_spec c 46) as [->|Hc]; [|discriminate].
      injection H as ->. exists []. split; [reflexivity|].
      intros Hin. clear IH. induction ext as [|d e IHe]; [contradiction|].
      simpl in E. destruct (after_last_dot e); [discriminate|].
      destruct (Z.eqb_spec d 46) as [->|Hd]; [discriminate|].
      destruct Hin as [Hin|Hin]; [congruence|]. apply IHe; [reflexivity|exact Hin].
  - intros (stem & -> & Hn). induction stem as [|c stem IH].
    + simpl. rewrite (after_last_dot_none ext Hn). reflexivity.
    + simpl. simpl in IH. rewrite IH. reflexivity.
Qed.

(** A file name is allowed exactly when the text after its last dot is,
    lower-cased, [pdf], [docx] or [doc]; a name without a dot is refused. *)
Theorem allowed_file_iff (filename : str) :
  allowed_file filename = true <->
  exists stem ext, filename = stem ++ [46] ++ ext /\ ~ In 46 ext /\
                   In (py_lower ext) ALLOWED_EXTENSIONS.
Proof.
  unfold allowed_file. split.
  - destruct (after_last_dot filename) as [ext|] eqn:E; [|discriminate].
    intros H. apply after_last_dot_some in E. destruct E as (stem & -> & Hn).
    exists stem, ext. repeat split; [exact Hn|]. apply mem_In, H.
  - intros (stem & ext & -> & Hn & Hin).
    assert (after_last_dot (stem ++ [46] ++ ext) = Some ext) as ->
      by (apply after_last_dot_some; eauto).
    apply mem_In, Hin.
Qed.

(** A supported extension is not refused: the reader library is missing,
    which is an import error, or a reader is called. *)
Lemma supported_not_refused (L : Libraries)
    (file_path file_extension job_description : str) (calls : list event) :
  py_lower file_extension = py ".pdf" \/ py_lower file_extension = py ".docx" \/
  py_lower file_extension = py ".doc" ->
  (exists msg, fst (parse_resume L file_path file_extension job_description calls)
               = inl (ImportError msg)) \/
  (exists ev, snd (parse_resume L file_path file_extension job_description calls)
              = calls ++ [ev]).
Proof.
  intros He. unfold parse_resume. cbv zeta.
  destruct He as [He|He].
  - rewrite He. change (str_eqb (py ".pdf") (py ".pdf")) with true. cbv iota.
    destruct (PdfReader L) as [reader|] eqn:El.
    + right. exists (OpenPdf file_path). rewrite bind_calls
        by (intros raw tr; destruct (is_empty (strip raw)); reflexivity).
      unfold extract_text_from_pdf, bind, emit. rewrite El.
      destruct (reader file_path) as [e|pages]; [reflexivity|].
      destruct (pdf_pages_text pages []); reflexivity.
    + left. unfold bind, extract_text_from_pdf. rewrite El. eexists. reflexivity.
  - assert (str_eqb (py_lower file_extension) (py ".pdf") = false) as E1
      by (destruct He as [He|He]; rewrite He; reflexivity).
    assert (mem (py_lower file_extension) [py ".docx"; py ".doc"] = true) as E2
      by (destruct He as [He|He]; rewrite He; reflexivity).
    rewrite E1, E2.
    destruct (Document L) as [open|] eqn:El.
    + right. exists (OpenDocx file_path). rewrite bind_calls
        by (intros raw tr; destruct (is_empty (strip raw)); reflexivity).
      unfold extract_text_from_docx, bind, emit. rewrite El.
      destruct (open file_path) as [e|[paragraphs tables]]; reflexivity.
    + left. unfold bind, extract_text_from_docx. rewrite El. eexists. reflexivity.
Qed.

Lemma unsupported_refused (L : Libraries)
    (file_path file_extension job_description : str) (calls : list event) :
  str_eqb (py_lower file_extension) (py ".pdf") = false ->
  mem (py_lower file_extension) [py ".docx"; py ".doc"] = false ->
  refused_as_unsupported L file_path file_extension job_description calls.
Proof.
  intros E1 E2. unfold refused_as_unsupported, parse_resume. cbv zeta.
  rewrite E1, E2. reflexivity.
Qed.

(** The upload filter and the dispatch of [parse_resume] accept the same
    extensions: for an ASCII extension without a dot, a name ending in a dot
    and that extension is allowed exactly when [parse_resume], given the
    dotted extension, does not refuse it as unsupported. *)
Theorem allowed_file_matches_dispatch (L : Libraries)
    (stem ext file_path job_description : str) (calls : list event) :
  forallb is_ascii ext = true -> ~ In 46 ext ->
  (allowed_file (stem ++ [46] ++ ext) = true <->
   ~ refused_as_unsupported L file_path ([46] ++ ext) job_description calls).
Proof.
  intros Ha Hn.
  assert (allowed_file (stem ++ [46] ++ ext) = mem (py_lower ext) ALLOWED_EXTENSIONS) as Hallowed.
  { unfold allowed_file.
    assert (after_last_dot (stem ++ [46] ++ ext) = Some ext) as ->
      by (apply after_last_dot_some; eauto).
    reflexivity. }
  assert (py_lower ([46] ++ ext) = 46 :: py_lower ext) as Hlow.
  { unfold py_lower. cbn [app forallb]. rewrite Ha. reflexivity. }
  rewrite Hallowed. split.
  - intros Hin Href. apply mem_In in Hin.
    assert (py_lower ([46] ++ ext) = py ".pdf" \/ py_lower ([46] ++ ext) = py ".docx" \/
            py_lower ([46] ++ ext) = py ".doc") as Hsup.
    { rewrite Hlow. unfold ALLOWED_EXTENSIONS in Hin. cbn [map In] in Hin.
      destruct Hin as [H|[H|[H|[]]]]; rewrite <- H; auto. }
    unfold refused_as_unsupported in Href.
    destruct (supported_not_refused L file_path ([46] ++ ext) job_description calls Hsup)
      as [[msg Hm]|[ev Hev]].
    + rewrite Href in Hm. discriminate.
    + rewrite Href in Hev. cbn [snd] in Hev.
      apply (f_equal (@length event)) in Hev. rewrite length_app in Hev.
      simpl in Hev. lia.
  - intros Hnot. destruct (mem (py_lower ext) ALLOWED_EXTENSIONS) eqn:Em; [reflexivity|].
    exfalso. apply Hnot. apply unsupported_refused; rewrite Hlow.
    + destruct (str_eqb (46 :: py_lower ext) (py ".pdf")) eqn:E; [|reflexivity].
      apply str_eqb_eq in E. change (py ".pdf") with (46 :: py "pdf") in E.
      injection E as E. rewrite E in Em. discriminate.
    + destruct (mem (46 :: py_lower ext) [py ".docx"; py ".doc"]) eqn:E; [|reflexivity].
      apply mem_In in E.
      change (py ".docx") with (46 :: py "docx") in E.
      change (py ".doc") with (46 :: py "doc") in E.
      destruct E as [E|[E|[]]]; injection E as E; rewrite <- E in Em; discriminate.
Qed.

End AllowedFile.

Lemma allowed_file_matches_dispatch_witness :
  ~ @refused_as_unsupported plain_db unreadable (py "uploads/My.Resume.PDF")
      ([46] ++ py "PDF") [] [].
Proof.
  refine (proj1 (@allowed_file_matches_dispatch plain_db unreadable
                   (py "My.Resume") (py "PDF") (py "uploads/My.Resume.PDF") [] [] _ _) _).
  - reflexivity.
  - vm_compute. intuition discriminate.
  - vm_compute. reflexivity.
Defined.

(** An extension outside the list is refused by both. *)
Lemma text_file_refused_by_both :
  @allowed_file plain_db (py "notes.txt") = false /\
  @refused_as_unsupported plain_db unreadable (py "uploads/notes.txt") (py ".txt") [] [].
Proof. split; vm_compute; reflexivity. Qed.

(** ** [extract_name] without a recogniser: the characters of a name *)

Section NameChars.
Context {U : UnicodeDB}.

Lemma forallb_Forall (p : Z -> bool) (s : str) :
  forallb p s = true <-> Forall (fun c => p c = true) s.
Proof. rewrite forallb_forall, Forall_forall. tauto. Qed.

(** Facts on the 128 ASCII characters, by evaluation. *)
Lemma ascii_cases (p : Z -> bool) :
  forallb (fun n => p (Z.of_nat n)) (List.seq 0 128) = true ->
  forall c, is_ascii c = true -> p c = true.
Proof.
  intros H c Hc. rewrite forallb_forall in H.
  unfold is_ascii, between in Hc. apply andb_true_iff in Hc.
  rewrite !Z.leb_le in Hc.
  specialize (H (Z.to_nat c)). rewrite Z2Nat.id in H by lia.
  apply H, in_seq. lia.
Qed.

Lemma name_char_case (c : Z) :
  name_char c = true ->
  name_char (lower_char c) = true /\ name_char (upper_char c) = true.
Proof.
  intros H. assert (is_ascii c = true) as Ha.
  { unfold name_char in H. apply andb_true_iff in H. apply H. }
  pose proof (ascii_cases
    (fun c => implb (name_char c) (name_char (lower_char c) && name_char (upper_char c)))
    eq_refl c Ha) as Hc.
  cbv beta in Hc. rewrite H in Hc. simpl in Hc. apply andb_true_iff in Hc. exact Hc.
Qed.

Lemma clean_class_name_char (c : Z) :
  is_ascii c = true ->
  name_char (if is_ascii_letter c || is_space c || chr ".-" c then c else SP) = true.
Proof.
  apply (ascii_cases
    (fun c => name_char (if is_ascii_letter c || is_space c || chr ".-" c then c else SP))).
  reflexivity.
Qed.

Lemma local_class_name_char (c : Z) :
  email_local_char c = true ->
  name_char (if is_ascii_digit c || (c =? 95) then SP else c) = true
  \/ chr ".-+" c = true.
Proof.
  intros H. assert (is_ascii c = true) as Ha.
  { revert H. unfold email_local_char, is_ascii_letter, is_ascii_upper, is_ascii_lower,
      is_ascii_digit, is_ascii, between, chr. cbn [py map list_ascii_of_string existsb].
    vm_compute N_of_ascii. simpl Z.of_N.
    rewrite !orb_true_iff, !andb_true_iff, !Z.leb_le, !Z.eqb_eq. lia. }
  pose proof (ascii_cases
    (fun c => implb (email_local_char c)
                (name_char (if is_ascii_digit c || (c =? 95) then SP else c)
                 || chr ".-+" c)) eq_refl c Ha) as Hc.
  cbv beta in Hc. rewrite H in Hc. simpl in Hc. apply orb_true_iff in Hc. exact Hc.
Qed.

Lemma name_chars_ascii (s : str) : (Forall (fun c => name_char c = true)) s -> forallb is_ascii s = true.
Proof.
  intros H. apply forallb_Forall. eapply Forall_impl; [|exact H].
  intros c Hc. unfold name_char in Hc. apply andb_true_iff in Hc. apply Hc.
Qed.

Lemma ascii_title_name (b : bool) (s : str) : (Forall (fun c => name_char c = true)) s -> (Forall (fun c => name_char c = true)) (ascii_title b s).
Proof.
  intros H. revert b. induction H as [|c s Hc Hs IH]; intros b; simpl; constructor.
  - destruct b; apply name_char_case, Hc.
  - apply IH.
Qed.

Lemma py_title_name (s : str) : (Forall (fun c => name_char c = true)) s -> (Forall (fun c => name_char c = true)) (py_title s).
Proof.
  intros H. unfold py_title. rewrite (name_chars_ascii s H). apply ascii_title_name, H.
Qed.

Lemma py_capitalize_name (s : str) : (Forall (fun c => name_char c = true)) s -> (Forall (fun c => name_char c = true)) (py_capitalize s).
Proof.
  intros H. unfold py_capitalize. rewrite (name_chars_ascii s H).
  destruct H as [|c s Hc Hs]; simpl; constructor.
  - apply name_char_case, Hc.
  - apply Forall_map. eapply Forall_impl; [|exact Hs]. intros x Hx. apply name_char_case, Hx.
Qed.

Lemma clean_line_name (line : str) : (Forall (fun c => is_ascii c = true)) line -> (Forall (fun c => name_char c = true)) (_clean_line line).
Proof.
  intros H. unfold _clean_line. cbv zeta.
  apply Forall_strip, sub_ws_2plus_Forall; [reflexivity|constructor|].
  apply Forall_map. eapply Forall_impl; [|exact H].
  intros c Hc. apply clean_class_name_char, Hc.
Qed.

Lemma upto_newline_Forall (P : Z -> Prop) (s : str) : Forall P s -> Forall P (upto_newline s).
Proof.
  induction 1 as [|c s Hc Hs IH]; simpl; [constructor|].
  destruct (c =? LF); constructor; assumption.
Qed.

Lemma match_name_label_ascii (line g : str) :
  (Forall (fun c => is_ascii c = true)) line -> match_name_label line = Some g -> (Forall (fun c => is_ascii c = true)) g.
Proof.
  intros H Hm. unfold match_name_label in Hm.
  destruct (matchre_sound _ _ _ _ _ Hm) as (m & rest & E & _ & Hk).
  unfold label_group in Hk.
  destruct (upto_newline rest) as [|c u] eqn:Eu; [discriminate|].
  injection Hk as <-. rewrite <- Eu. apply upto_newline_Forall.
  apply (Forall_strip _ _) in H. rewrite E in H. apply Forall_app in H. apply H.
Qed.

Lemma name_from_label_name (lines : list str) (name : str) :
  Forall (Forall (fun c => is_ascii c = true)) lines -> name_from_label lines = Some name -> (Forall (fun c => name_char c = true)) name.
Proof.
  induction 1 as [|l ls Hl Hls IH]; simpl; [discriminate|].
  destruct (match_name_label l) as [g|] eqn:Eg; [|exact IH].
  destruct (_is_name_like (_clean_line g)); [|exact IH].
  intros H. injection H as <-.
  apply py_title_name, clean_line_name. eapply match_name_label_ascii; eassumption.
Qed.

Lemma name_from_line_name (lines : list str) (name : str) :
  Forall (Forall (fun c => is_ascii c = true)) lines -> name_from_line lines = Some name -> (Forall (fun c => name_char c = true)) name.
Proof.
  induction 1 as [|l ls Hl Hls IH]; simpl; [discriminate|].
  destruct (is_empty (strip l)); [exact IH|].
  destruct (_is_name_like (_clean_line (strip l)) && _); [|exact IH].
  intros H. injection H as <-.
  apply py_title_name, clean_line_name, Forall_strip, Hl.
Qed.

Lemma split_ws_Forall (P : Z -> Prop) (s : str) :
  Forall P s -> Forall (Forall P) (split_ws s).
Proof.
  induction 1 as [|c s Hc Hs IH]; simpl; [constructor|].
  destruct (is_space c); [exact IH|].
  destruct s as [|d s']; [repeat constructor; exact Hc|].
  destruct (is_space d); [constructor; [repeat constructor; exact Hc|exact IH]|].
  destruct (split_ws (d :: s')) as [|w ws].
  - repeat constructor. exact Hc.
  - inversion IH; subst. constructor; [constructor|]; assumption.
Qed.

Lemma join_Forall (P : Z -> Prop) (sep : str) (parts : list str) :
  Forall P sep -> Forall (Forall P) parts -> Forall P (join sep parts).
Proof.
  intros Hsep. induction 1 as [|p ps Hp Hps IH]; [constructor|].
  destruct ps as [|q ps]; [exact Hp|].
  change (join sep (p :: q :: ps)) with (p ++ sep ++ join sep (q :: ps)).
  apply Forall_app. split; [exact Hp|]. apply Forall_app. split; [exact Hsep|exact IH].
Qed.

Lemma Forall_filter {A : Type} (P : A -> Prop) (f : A -> bool) (l : list A) :
  Forall P l -> Forall P (filter f l).
Proof.
  induction 1 as [|x l Hx Hl IH]; simpl; [constructor|].
  destruct (f x); [constructor|]; assumption.
Qed.

Lemma name_from_first_line_name (lines : list str) (name : str) :
  Forall (Forall (fun c => is_ascii c = true)) lines -> name_from_first_line lines = Some name -> (Forall (fun c => name_char c = true)) name.
Proof.
  induction 1 as [|l ls Hl Hls IH]; simpl; [discriminate|].
  destruct (is_empty (strip l)); [exact IH|].
  destruct (negb _ && _ && _); [|discriminate].
  intros H. injection H as <-.
  apply py_title_name, join_Forall; [repeat constructor|].
  apply Forall_filter, split_ws_Forall, clean_line_name, Forall_strip, Hl.
Qed.

Lemma before_at_Forall (P : Z -> Prop) (s : str) : Forall P s -> Forall P (before_at s).
Proof.
  induction 1 as [|c s Hc Hs IH]; simpl; [constructor|].
  destruct (c =? 64); constructor; assumption.
Qed.

Lemma before_at_app (local rest : str) :
  ~ In 64 local -> before_at (local ++ 64 :: rest) = local.
Proof.
  induction local as [|c l IH]; intros H; simpl.
  - reflexivity.
  - destruct (Z.eqb_spec c 64) as [->|Hc]; [simpl in H; tauto|].
    rewrite IH by (simpl in H; tauto). reflexivity.
Qed.

Lemma split_runs_Forall (P : Z -> Prop) (sep : Z -> bool) (s : str) :
  Forall (fun c => P c \/ sep c = true) s -> Forall (Forall P) (split_runs sep s).
Proof.
  induction 1 as [|c s Hc Hs IH]; cbn [split_runs]; [repeat constructor|].
  destruct (sep c) eqn:Ec.
  - destruct s as [|d s']; [repeat constructor|].
    destruct (sep d); [exact IH|constructor; [constructor|exact IH]].
  - destruct Hc as [Hc|Hc]; [|congruence].
    destruct (split_runs sep s) as [|p ps].
    + repeat constructor. exact Hc.
    + inversion IH; subst. constructor; [constructor|]; assumption.
Qed.

Lemma name_from_email_name (text name : str) :
  name_from_email text = Some name -> (Forall (fun c => name_char c = true)) name.
Proof.
  unfold name_from_email, extract_email.
  destruct (search email_pattern text) as [m|] eqn:E.
  2:{ change (negb (is_empty NOT_FOUND) && negb (str_eqb NOT_FOUND NOT_FOUND)) with false.
      discriminate. }
  destruct (email_match_form text m E) as (local & domain & tld & -> & _ & _ & Hl & _).
  destruct (negb _ && negb _); [|discriminate]. cbv zeta.
  assert (~ In 64 local) as Hat.
  { intros Hin. rewrite Forall_forall in Hl. specialize (Hl 64 Hin).
    vm_compute in Hl. discriminate. }
  change (py "@" ++ domain ++ py "." ++ tld) with (64 :: domain ++ py "." ++ tld).
  rewrite (before_at_app local _ Hat).
  set (parts := map strip (filter _ (split_runs (chr ".-+") _))).
  assert (Forall (Forall (fun c => name_char c = true)) parts) as Hp.
  { subst parts. apply Forall_map.
    eapply Forall_impl; [intros p; apply Forall_strip|].
    apply Forall_filter, split_runs_Forall, Forall_map.
    eapply Forall_impl; [|exact Hl]. intros c Hc. cbv beta.
    destruct (local_class_name_char c Hc) as [H|H]; [left; exact H|].
    destruct (is_ascii_digit c || (c =? 95)) eqn:Ed; [left; reflexivity|right; exact H]. }
  destruct parts as [|p ps]; [discriminate|].
  intros H. injection H as <-.
  change ((Forall (fun c => name_char c = true)) (join [SP] (map py_capitalize (p :: ps)))).
  apply join_Forall; [repeat constructor|].
  apply Forall_map. eapply Forall_impl; [|exact Hp]. apply py_capitalize_name.
Qed.

Lemma firstn_Forall {A : Type} (P : A -> Prop) (n : nat) (l : list A) :
  Forall P l -> Forall P (firstn n l).
Proof.
  intros H. revert n. induction H as [|x l Hx Hl IH]; intros [|n]; simpl;
    constructor; auto.
Qed.

(** Without a recogniser, the name found in an ASCII text is made of letters,
    whitespace, dots, hyphens and percent signs only: it holds no digit, no
    [@] and no other symbol.  (The sentinel is such a string.) *)
Theorem extract_name_chars (text : str) :
  forallb is_ascii text = true ->
  Forall (fun c => name_char c = true) (extract_name None text).
Proof.
  intros Ha. apply forallb_Forall in Ha.
  assert (Forall (Forall (fun c => is_ascii c = true)) (split_nl (strip text))) as Hlines
    by (apply split_nl_Forall, Forall_strip, Ha).
  unfold extract_name. cbv zeta.
  destruct (name_from_label _) as [n|] eqn:E1.
  { eapply name_from_label_name; [|exact E1]. apply firstn_Forall, Hlines. }
  destruct (name_from_line _) as [n|] eqn:E3.
  { eapply name_from_line_name; [|exact E3]. apply firstn_Forall, Hlines. }
  destruct (name_from_first_line _) as [n|] eqn:E4.
  { eapply name_from_first_line_name; [|exact E4]. apply firstn_Forall, Hlines. }
  destruct (name_from_email text) as [n|] eqn:E5.
  { eapply name_from_email_name, E5. }
  apply forallb_Forall. reflexivity.
Qed.

End NameChars.

Lemma extract_name_chars_witness :
  Forall (fun c => name_char c = true)
         (@extract_name plain_db None (py "Contact: j_smith-lee99@mail.com, +1 555 0100")).
Proof. apply (@extract_name_chars plain_db). vm_compute. reflexivity. Defined.
